(** * The batch image-transform pipeline of the photo gallery

    A shallow embedding of [src/components/batch/BatchProcessor.tsx]
    (the functions [processImage] and [startBatchProcessing], and the
    click handlers of the dialog) and of [applyFilters] of the photo
    editor, with the properties the design document states about them.

    Conventions of the embedding.
    - A JavaScript [number] is an exact rational ([Qc]): the arithmetic
      of the code ([/], [*], [+], [>]) is read without floating-point
      rounding error, and only finite values are represented.  [x / 0]
      is [0] in [Qc] and not a number in JavaScript: every statement
      about a quotient assumes its divisor is not zero.
    - What the browser decides (whether a 2D context is available,
      whether an image loads and with which natural size, whether the
      canvas encodes, whether the archive is generated, the clock) is a
      parameter of type [Browser] / [World]; nothing is assumed about it.
    - React state setters, [console.error], [toast] and [saveAs] are
      recorded, in program order, in an event log. *)

From Stdlib Require Import QArith Qcanon Qround Sorted.
From stdpp Require Import base numbers gmap strings list pretty.

Local Open Scope Qc_scope.

Abbreviation number := Qc.

(** Integer literals of the source, as numbers. *)
Definition num (z : Z) : number := Qc_of_Z z.

(** ** [@/types] *)

Module Types.

Record Photo := {
  id : string;
  user_id : string;
  title : string;
  description : option string;
  file_path : string;
  file_url : string;
  file_size : number;
  mime_type : string;
  created_at : string;
  updated_at : string
}.

(** [FilterPreset['filters']] *)
Record PresetFilters := {
  brightness : number;
  contrast : number;
  saturation : number;
  blur : number;
  sepia : number;
  grayscale : number
}.

Record FilterPreset := {
  name : string;
  filters : PresetFilters
}.

End Types.

(** ** The part of the DOM the batch code talks to *)

Module Dom.

(** One function of a CSS [filter] value, with its numeric argument
    (a percentage for the first three, pixels for [blur]). *)
Inductive CssFilterFunction :=
| css_brightness (pct : number)
| css_contrast (pct : number)
| css_saturate (pct : number)
| css_blur (px : number).

Global Instance CssFilterFunction_eq_dec : EqDecision CssFilterFunction.
Proof. solve_decision. Defined.

(** Truncation toward zero of a finite number. *)
Definition truncate (x : number) : Z :=
  Z.quot (Qnum (this x)) (Z.pos (Qden (this x))).

(** [canvas.width = x] and [canvas.height = x]: the attribute is an
    [unsigned long] that reflects a content attribute.  The number is
    truncated and taken modulo 2^32; a result above 2^31 - 1 is
    replaced by the attribute's default. *)
Definition to_unsigned_long (x : number) : Z := (truncate x) mod (2 ^ 32).

Definition reflect_dimension (default : Z) (x : number) : Z :=
  let n := to_unsigned_long x in
  if (2147483647 <? n)%Z then default else n.

(** The arguments of the one [ctx.drawImage(img, 0, 0, width, height)]
    call. *)
Record DrawImage := {
  dx : number;
  dy : number;
  dWidth : number;
  dHeight : number
}.

(** What a canvas holds when [toBlob] is called on it. *)
Record Canvas := {
  canvas_width : Z;
  canvas_height : Z;
  ctx_filter : list CssFilterFunction;
  drawn : DrawImage
}.

Definition Blob := string.

(** The behaviour of the browser during one call of [processImage]. *)
Record Browser := {
  (** [canvas.getContext('2d')] returns a context *)
  getContext : bool;
  (** [img.src = url]: [onload] with the natural size, or [onerror] *)
  loadImage : string -> option (Z * Z);
  (** [canvas.toBlob(cb, type, quality)]: the blob handed to [cb] *)
  toBlob : Canvas -> string -> number -> option Blob
}.

End Dom.

(** ** [src/components/batch/BatchProcessor.tsx] *)

Module BatchProcessor.

Import Dom.

Inductive Format := png | jpeg | webp.

Definition format_name (f : Format) : string :=
  match f with
  | png => "png"
  | jpeg => "jpeg"
  | webp => "webp"
  end.

Record Resize := {
  enabled : bool;
  width : number;
  height : number;
  maintainAspectRatio : bool
}.

Record Filters := {
  brightness : number;
  contrast : number;
  saturation : number;
  blur : number
}.

Record ProcessingOptions := {
  resize : Resize;
  filters : Filters;
  format : Format;
  quality : number
}.

Definition defaultOptions : ProcessingOptions := {|
  resize := {| enabled := false; width := num 1920; height := num 1080;
               maintainAspectRatio := true |};
  filters := {| brightness := num 0; contrast := num 0;
                saturation := num 0; blur := num 0 |};
  format := jpeg;
  quality := num 90
|}.

(** The block under [// Calculate dimensions] of [img.onload]: the
    final values of the local variables [width] and [height]. *)
Definition calculate_dimensions (options : ProcessingOptions)
    (naturalWidth naturalHeight : Z) : number * number :=
  let width0 := num naturalWidth in
  let height0 := num naturalHeight in
  if enabled (resize options) then
    if maintainAspectRatio (resize options) then
      let aspectRatio := width0 / height0 in
      if bool_decide (height0 < width0) then
        let width1 := width (resize options) in
        (width1, width1 / aspectRatio)
      else
        let height1 := height (resize options) in
        (height1 * aspectRatio, height1)
    else
      (width (resize options), height (resize options))
  else
    (width0, height0).

(** The template literal assigned to [ctx.filter], as the list of the
    filter functions it spells out. *)
Definition filter_value (f : Filters) : list CssFilterFunction :=
  [ css_brightness (num 100 + brightness f);
    css_contrast (num 100 + contrast f);
    css_saturate (num 100 + saturation f);
    css_blur (blur f) ].

(** A settled promise. *)
Inductive Promise (A : Type) :=
| Resolved (a : A)
| Rejected (message : string).
Arguments Resolved {A} a.
Arguments Rejected {A} message.

(** The canvas as [img.onload] leaves it when it calls [toBlob]. *)
Definition prepare_canvas (options : ProcessingOptions)
    (naturalWidth naturalHeight : Z) : Canvas :=
  let '(width, height) :=
    calculate_dimensions options naturalWidth naturalHeight in
  {| canvas_width := reflect_dimension 300 width;
     canvas_height := reflect_dimension 150 height;
     ctx_filter := filter_value (filters options);
     drawn := {| dx := num 0; dy := num 0;
                 dWidth := width; dHeight := height |} |}.

Definition processImage (b : Browser) (options : ProcessingOptions)
    (photo : Types.Photo) : Promise Blob :=
  if negb (getContext b) then Rejected "Could not get canvas context"
  else
    match loadImage b (Types.file_url photo) with
    | None => Rejected "Failed to load image"
    | Some (naturalWidth, naturalHeight) =>
        let canvas := prepare_canvas options naturalWidth naturalHeight in
        match toBlob b canvas ("image/" +:+ format_name (format options))
                (quality options / num 100) with
        | Some blob => Resolved blob
        | None => Rejected "Failed to process image"
        end
    end.

(** *** The effects of a run *)

Inductive Event :=
| setProcessing (b : bool)
| setProgress (p : number)
| setCurrentPhoto (t : string)
| console_error (message : string) (error : string)
| toast_error (message : string)
| toast_success (message : string)
| saveAs (archive : gmap string Blob) (filename : string)
| onOpenChange (open : bool).

Global Instance Event_eq_dec : EqDecision Event.
Proof. solve_decision. Defined.

(** The buttons of the dialog: the X of the header (the dialog's own
    ways of closing, Escape and a click outside, do the same), and the
    Cancel and Start buttons of the footer. *)
Inductive Click := header_close | cancel_button | start_button.

(** What a click does while [processing] is true, which it is whenever
    the loop awaits [processImage]: the X calls [onOpenChange(false)];
    Cancel is [disabled={processing}] and Start is
    [disabled={processing || photos.length === 0}], so neither handler
    runs.  No handler writes a variable the loop reads. *)
Definition click_while_processing (c : Click) : list Event :=
  match c with
  | header_close => [onOpenChange false]
  | cancel_button => []
  | start_button => []
  end.

(** Whether a promise resolves. *)
Definition resolves {A} (p : Promise A) : bool :=
  match p with
  | Resolved _ => true
  | Rejected _ => false
  end.

(** The browser and the user during a whole run: the browser's
    behaviour during the [i]-th call of [processImage], the clicks
    handled while that call is awaited, what [zip.generateAsync] settles
    to, and [Date.now()]. *)
Record World := {
  item : nat -> Browser;
  clicks : nat -> list Click;
  generateAsync : Promise unit;
  now : Z
}.

(** The local variables [zip] and [processedPhotos] of
    [startBatchProcessing], and the events so far.  [zip.file(n, b)]
    adds the entry [n], or replaces the entry of that name. *)
Record Run := {
  zip : gmap string Blob;
  processedPhotos : list (string * Blob);
  events : list Event
}.

Definition emit (e : Event) (r : Run) : Run :=
  {| zip := zip r; processedPhotos := processedPhotos r;
     events := events r ++ [e] |}.

Definition fileName (options : ProcessingOptions) (photo : Types.Photo)
    : string :=
  Types.title photo +:+ "." +:+ format_name (format options).

Definition failed_to_process (photo : Types.Photo) : string :=
  "Failed to process " +:+ Types.title photo.

(** [((i + 1) / photos.length) * 100] *)
Definition progress_after (i total : nat) : number :=
  (num (Z.of_nat i + 1) / num (Z.of_nat total)) * num 100.

Definition emit_all (es : list Event) (r : Run) : Run :=
  {| zip := zip r; processedPhotos := processedPhotos r;
     events := events r ++ es |}.

(** One iteration of the [for] loop, for index [i] and [photo = photos[i]]. *)
Definition loop_body (w : World) (options : ProcessingOptions)
    (total i : nat) (photo : Types.Photo) (r : Run) : Run :=
  let r1 := emit (setCurrentPhoto (Types.title photo)) r in
  let awaited := processImage (item w i) options photo in
  let r2 := emit_all (clicks w i ≫= click_while_processing) r1 in
  let r3 :=
    match awaited with
    | Resolved processedBlob =>
        {| zip := <[fileName options photo := processedBlob]> (zip r2);
           processedPhotos :=
             processedPhotos r2 ++ [(fileName options photo, processedBlob)];
           events := events r2 |}
    | Rejected error =>
        emit (toast_error (failed_to_process photo))
          (emit (console_error (failed_to_process photo +:+ ":") error) r2)
    end in
  emit (setProgress (progress_after i total)) r3.

(** The [for] loop from index [i] on, [rest] being [photos.slice(i)]. *)
Fixpoint for_loop (w : World) (options : ProcessingOptions)
    (total i : nat) (rest : list Types.Photo) (r : Run) : Run :=
  match rest with
  | [] => r
  | photo :: rest' =>
      for_loop w options total (S i) rest'
        (loop_body w options total i photo r)
  end.

(** After the loop: the guarded archive generation, with the outer
    [catch]. *)
Definition deliver (w : World) (r : Run) : Run :=
  if (0 <? length (processedPhotos r))%nat then
    match generateAsync w with
    | Resolved _ =>
        emit (toast_success
                ("Successfully processed "
                   +:+ pretty (length (processedPhotos r)) +:+ " photos"))
          (emit (saveAs (zip r)
                   ("batch-processed-" +:+ pretty (now w) +:+ ".zip")) r)
    | Rejected error =>
        emit (toast_error "Batch processing failed")
          (emit (console_error "Batch processing error:" error) r)
    end
  else r.

(** The [finally] block. *)
Definition finally (r : Run) : Run :=
  emit (setCurrentPhoto "") (emit (setProgress (num 0))
    (emit (setProcessing false) r)).

Definition start : Run :=
  {| zip := ∅; processedPhotos := [];
     events := [setProcessing true; setProgress (num 0)] |}.

Definition startBatchProcessing (w : World) (options : ProcessingOptions)
    (photos : list Types.Photo) : Run :=
  if (length photos =? 0)%nat then
    {| zip := ∅; processedPhotos := []; events := [] |}
  else
    finally
      (deliver w (for_loop w options (length photos) 0 photos start)).

End BatchProcessor.

(** ** The photo editor: [filterPresets], [handleFilterChange], [applyFilters] *)

Module PhotoEditor.

Import Types.

(** [new fabric.Image.filters.X({...})] *)
Inductive FabricFilter :=
| Brightness (brightness : number)
| Contrast (contrast : number)
| Saturation (saturation : number)
| Blur (blur : number)
| Sepia
| Grayscale.

Global Instance FabricFilter_eq_dec : EqDecision FabricFilter.
Proof. solve_decision. Defined.

Definition preset (n : string) (b c s bl se g : number) : FilterPreset :=
  {| name := n;
     filters := {| brightness := b; contrast := c; saturation := s;
                   blur := bl; sepia := se; grayscale := g |} |}.

Definition original : FilterPreset :=
  preset "Original" (num 0) (num 0) (num 0) (num 0) (num 0) (num 0).

Definition soft : FilterPreset :=
  preset "Soft" (num 1 / num 10) (- (num 1 / num 10)) (num 1 / num 10)
    (num 1) (num 0) (num 0).

Definition filterPresets : list FilterPreset :=
  [ original;
    preset "Bright" (num 2 / num 10) (num 1 / num 10) (num 1 / num 10)
      (num 0) (num 0) (num 0);
    preset "Vintage" (num 1 / num 10) (- (num 1 / num 10))
      (- (num 2 / num 10)) (num 0) (num 3 / num 10) (num 0);
    preset "B&W" (num 0) (num 1 / num 10) (num 0) (num 0) (num 0) (num 1);
    preset "Sepia" (num 1 / num 10) (num 0) (- (num 1 / num 10)) (num 0)
      (num 8 / num 10) (num 0);
    soft ].





End PhotoEditor.

(** ** What a run lets one observe *)

Module Observed.

Import Dom BatchProcessor.

(** The arguments of the successive [setCurrentPhoto] calls. *)
Definition current_photos (es : list Event) : list string :=
  omap (λ e, match e with setCurrentPhoto t => Some t | _ => None end) es.

(** The messages of the per-item error toasts
    ([`Failed to process ${photo.title}`]). *)
Definition item_failure_toasts (es : list Event) : list string :=
  omap (λ e, match e with
             | toast_error m =>
                 if String.prefix "Failed to process " m then Some m
                 else None
             | _ => None
             end) es.

(** The archives handed to [saveAs]. *)
Definition saved_archives (es : list Event) : list (gmap string Blob) :=
  omap (λ e, match e with saveAs a _ => Some a | _ => None end) es.

(** Each photo from index [i] on, with what its [processImage] call
    settles to. *)
Fixpoint outcomes (w : World) (options : ProcessingOptions) (i : nat)
    (rest : list Types.Photo) : list (Types.Photo * Promise Blob) :=
  match rest with
  | [] => []
  | photo :: rest' =>
      (photo, processImage (item w i) options photo)
        :: outcomes w options (S i) rest'
  end.

(** The output entries of the items that resolve, and the items that
    reject. *)
Definition succeeded (options : ProcessingOptions)
    (os : list (Types.Photo * Promise Blob)) : list (string * Blob) :=
  omap (λ o, match o.2 with
             | Resolved blob => Some (fileName options o.1, blob)
             | Rejected _ => None
             end) os.

Definition failed (os : list (Types.Photo * Promise Blob))
    : list Types.Photo :=
  omap (λ o, match o.2 with
             | Resolved _ => None
             | Rejected _ => Some o.1
             end) os.

(** The events of iteration [i]. *)
Definition item_events (w : World) (options : ProcessingOptions)
    (total i : nat) (photo : Types.Photo) : list Event :=
  setCurrentPhoto (Types.title photo)
    :: (clicks w i ≫= click_while_processing)
    ++ match processImage (item w i) options photo with
       | Resolved _ => []
       | Rejected error =>
           [ console_error (failed_to_process photo +:+ ":") error;
             toast_error (failed_to_process photo) ]
       end
    ++ [setProgress (progress_after i total)].

Fixpoint loop_events (w : World) (options : ProcessingOptions)
    (total i : nat) (rest : list Types.Photo) : list Event :=
  match rest with
  | [] => []
  | photo :: rest' =>
      item_events w options total i photo
        ++ loop_events w options total (S i) rest'
  end.

(** [zip.file] applied to a list of entries, in order. *)
Definition add_files (z : gmap string Blob) (l : list (string * Blob))
    : gmap string Blob :=
  foldl (λ m e, <[e.1 := e.2]> m) z l.

(** The number of per-item results a run has recorded: an entry of
    [processedPhotos] for a success, an error toast for a failure. *)
Definition recorded_results (r : Run) : nat :=
  length (processedPhotos r) + length (item_failure_toasts (events r)).


Definition is_integer (x : number) : bool :=
  bool_decide (Qden (this x) = 1%positive).

Definition in_range (lo hi x : number) : bool :=
  bool_decide (lo ≤ x) && bool_decide (x ≤ hi).

(** Modelled from the spec: the range check of a transform spec
    ("every field is range-checked"), which the source does not have:
    target width and height are positive integers, brightness,
    contrast and saturation lie in [-100,100], blur in [0,20], and
    quality is an integer in [1,100]. *)
Definition valid_spec (options : ProcessingOptions) : bool :=
  is_integer (width (resize options))
  && bool_decide (num 0 < width (resize options))
  && is_integer (height (resize options))
  && bool_decide (num 0 < height (resize options))
  && in_range (num (-100)) (num 100) (brightness (filters options))
  && in_range (num (-100)) (num 100) (contrast (filters options))
  && in_range (num (-100)) (num 100) (saturation (filters options))
  && in_range (num 0) (num 20) (blur (filters options))
  && is_integer (quality options)
  && in_range (num 1) (num 100) (quality options).



End Observed.

(** ** What the canvas draws

    [ctx.filter] is set before the one [drawImage] call: the browser
    resamples the decoded image to [dWidth] x [dHeight] and passes the
    result through the filter functions, from left to right.  The
    functions are those of the Filter Effects specification, read on
    exact channel values in [0,1]: [brightness] and [contrast] are
    linear transfer functions on the colour channels, [saturate] is the
    saturation colour matrix, and [blur] is a Gaussian blur whose
    standard deviation 0 leaves the input as it is.  The resampling and
    the Gaussian kernel are the browser's, and are left as parameters. *)

Module Canvas2D.

Import Dom.

Record Pixel := {
  red : number;
  green : number;
  blue : number;
  alpha : number
}.

Definition Bitmap := list Pixel.

Record Renderer := {
  resample : Bitmap -> number -> number -> Bitmap;
  gaussian : number -> Bitmap -> Bitmap
}.

Definition clamp (x : number) : number :=
  if bool_decide (x < num 0) then num 0
  else if bool_decide (num 1 < x) then num 1
  else x.

Definition in_gamut (p : Pixel) : Prop :=
  (num 0 ≤ red p ∧ red p ≤ num 1)
  ∧ (num 0 ≤ green p ∧ green p ≤ num 1)
  ∧ (num 0 ≤ blue p ∧ blue p ≤ num 1).

Global Instance in_gamut_dec (p : Pixel) : Decision (in_gamut p).
Proof. unfold in_gamut. apply _. Defined.

(** [C' = slope * C + intercept] on the three colour channels. *)
Definition linear (slope intercept : number) (p : Pixel) : Pixel :=
  {| red := clamp (slope * red p + intercept);
     green := clamp (slope * green p + intercept);
     blue := clamp (slope * blue p + intercept);
     alpha := alpha p |}.

Definition k (thousandths : Z) : number := num thousandths / num 1000.

(** The colour matrix of [saturate(s)]. *)
Definition saturate_matrix (s : number) (p : Pixel) : Pixel :=
  {| red := clamp ((k 213 + k 787 * s) * red p
                   + (k 715 - k 715 * s) * green p
                   + (k 72 - k 72 * s) * blue p);
     green := clamp ((k 213 - k 213 * s) * red p
                     + (k 715 + k 285 * s) * green p
                     + (k 72 - k 72 * s) * blue p);
     blue := clamp ((k 213 - k 213 * s) * red p
                    + (k 715 - k 715 * s) * green p
                    + (k 72 + k 928 * s) * blue p);
     alpha := alpha p |}.

Definition filter_function (rd : Renderer) (f : CssFilterFunction)
    (b : Bitmap) : Bitmap :=
  match f with
  | css_brightness pct => linear (pct / num 100) (num 0) <$> b
  | css_contrast pct =>
      linear (pct / num 100) (num 1 / num 2 - (pct / num 100) / num 2) <$> b
  | css_saturate pct => saturate_matrix (pct / num 100) <$> b
  | css_blur px => if bool_decide (px = num 0) then b else gaussian rd px b
  end.

Definition apply_filter (rd : Renderer) (fs : list CssFilterFunction)
    (b : Bitmap) : Bitmap :=
  foldl (λ acc f, filter_function rd f acc) b fs.

(** The content of a canvas after its [drawImage] call on the decoded
    image [img]. *)
Definition content (rd : Renderer) (c : Canvas) (img : Bitmap) : Bitmap :=
  apply_filter rd (ctx_filter c)
    (resample rd img (dWidth (drawn c)) (dHeight (drawn c))).

(** The same canvas with [ctx.filter] left at its initial value,
    [none]. *)
Definition without_filter (c : Canvas) : Canvas :=
  {| canvas_width := canvas_width c; canvas_height := canvas_height c;
     ctx_filter := []; drawn := drawn c |}.

End Canvas2D.

(** ** Concrete photos, browsers and options, for the examples *)

Module Examples.

Import Dom BatchProcessor.

Definition photo (t : string) : Types.Photo :=
  {| Types.id := "id-" +:+ t; Types.user_id := "u1"; Types.title := t;
     Types.description := None;
     Types.file_path := "u1/" +:+ t;
     Types.file_url := "https://cdn.example/" +:+ t;
     Types.file_size := num 1024; Types.mime_type := "image/png";
     Types.created_at := "2024-01-01"; Types.updated_at := "2024-01-01" |}.

(** A browser in which every image is [w] x [h], the images of the
    titles in [broken] do not load, and a canvas encodes unless one of
    its sides is 0. *)
Definition browser (w h : Z) (broken : list string) : Browser :=
  {| getContext := true;
     loadImage := λ url,
       if bool_decide (url ∈ (λ t, "https://cdn.example/" +:+ t) <$> broken)
       then None else Some (w, h);
     toBlob := λ c type q,
       if bool_decide (canvas_width c = 0%Z)
          || bool_decide (canvas_height c = 0%Z)
       then None
       else Some (type +:+ " " +:+ pretty (canvas_width c) +:+ "x"
                    +:+ pretty (canvas_height c)) |}.

Definition world (b : Browser) (cs : nat -> list Click) : World :=
  {| item := λ _, b; clicks := cs; generateAsync := Resolved ();
     now := 1700000000000 |}.

Definition no_clicks : nat -> list Click := λ _, [].

(** The user clicks Cancel, then the X, while the item of index [i] is
    awaited. *)
Definition cancel_during (i : nat) : nat -> list Click :=
  λ j, if (j =? i)%nat then [cancel_button; header_close] else [].

Definition resize_to (w h : Z) (keep : bool) : ProcessingOptions :=
  {| resize := {| enabled := true; width := num w; height := num h;
                  maintainAspectRatio := keep |};
     filters := filters defaultOptions;
     format := jpeg;
     quality := num 90 |}.

(** A renderer that draws an image at its own size, and blurs by
    replacing every pixel by the mean of the bitmap. *)
Definition mean (xs : list number) : number :=
  foldr Qcplus (num 0) xs / num (Z.of_nat (length xs)).

Definition mean_blur (b : Canvas2D.Bitmap) : Canvas2D.Bitmap :=
  let m := {| Canvas2D.red := mean (Canvas2D.red <$> b);
              Canvas2D.green := mean (Canvas2D.green <$> b);
              Canvas2D.blue := mean (Canvas2D.blue <$> b);
              Canvas2D.alpha := mean (Canvas2D.alpha <$> b) |} in
  (λ _, m) <$> b.

Definition renderer : Canvas2D.Renderer :=
  {| Canvas2D.resample := λ img _ _, img;
     Canvas2D.gaussian := λ _ b, mean_blur b |}.

Definition rgba (r g b : number) : Canvas2D.Pixel :=
  {| Canvas2D.red := r; Canvas2D.green := g; Canvas2D.blue := b;
     Canvas2D.alpha := num 1 |}.

Definition two_pixels : Canvas2D.Bitmap :=
  [ rgba (num 1 / num 2) (num 1 / num 4) (num 1);
    rgba (num 0) (num 1) (num 3 / num 4) ].

End Examples.

(** ** More of what a run lets one observe *)

Module Logs.

Import Dom BatchProcessor.

(** The arguments of the successive [setProgress] calls. *)
Definition progress_values (es : list Event) : list number :=
  omap (λ e, match e with setProgress p => Some p | _ => None end) es.

(** The messages of all error toasts, and of all success toasts. *)
Definition error_toasts (es : list Event) : list string :=
  omap (λ e, match e with toast_error m => Some m | _ => None end) es.

Definition success_toasts (es : list Event) : list string :=
  omap (λ e, match e with toast_success m => Some m | _ => None end) es.

(** The entries of [processedPhotos] that carry the name [n]. *)
Definition entries_named (n : string) (l : list (string * Blob))
    : list (string * Blob) :=
  filter (λ e, e.1 = n) l.

End Logs.

(** ** [updateOptions] and [updateNestedOptions] of the batch dialog *)

Module BatchOptions.

Import BatchProcessor.

(** [keyof ProcessingOptions] *)
Inductive Key := key_resize | key_filters | key_format | key_quality.

Global Instance Key_eq_dec : EqDecision Key.
Proof. solve_decision. Defined.

(** The values the controls of the dialog pass as [value: any]: a
    checkbox state, a number, or a format name. *)
Inductive Value :=
| v_boolean (b : bool)
| v_number (n : number)
| v_format (f : Format).

Global Instance Format_eq_dec : EqDecision Format.
Proof. solve_decision. Defined.

Global Instance Value_eq_dec : EqDecision Value.
Proof. solve_decision. Defined.

(** [options[key]] for the two keys that hold a plain value, and
    [options[parentKey][childKey]] for the two that hold an object;
    nothing where there is no such field. *)
Definition read (key : Key) (options : ProcessingOptions) : option Value :=
  match key with
  | key_format => Some (v_format (format options))
  | key_quality => Some (v_number (quality options))
  | key_resize | key_filters => None
  end.

Definition read_nested (parentKey : Key) (childKey : string)
    (options : ProcessingOptions) : option Value :=
  match parentKey with
  | key_resize =>
      if decide (childKey = "enabled")
      then Some (v_boolean (enabled (resize options)))
      else if decide (childKey = "width")
      then Some (v_number (width (resize options)))
      else if decide (childKey = "height")
      then Some (v_number (height (resize options)))
      else if decide (childKey = "maintainAspectRatio")
      then Some (v_boolean (maintainAspectRatio (resize options)))
      else None
  | key_filters =>
      if decide (childKey = "brightness")
      then Some (v_number (brightness (filters options)))
      else if decide (childKey = "contrast")
      then Some (v_number (contrast (filters options)))
      else if decide (childKey = "saturation")
      then Some (v_number (saturation (filters options)))
      else if decide (childKey = "blur")
      then Some (v_number (blur (filters options)))
      else None
  | key_format | key_quality => None
  end.

(** [{ ...prev, [key]: value }].  The result is given when it is again
    a [ProcessingOptions]: for [format] with a format name and for
    [quality] with a number. *)
Definition updateOptions (key : Key) (value : Value)
    (prev : ProcessingOptions) : option ProcessingOptions :=
  match key, value with
  | key_format, v_format f =>
      Some {| resize := resize prev; filters := filters prev; format := f;
              quality := quality prev |}
  | key_quality, v_number q =>
      Some {| resize := resize prev; filters := filters prev;
              format := format prev; quality := q |}
  | _, _ => None
  end.

(** [{ ...prev[parentKey], [childKey]: value }], when [childKey] is a
    field of that object and [value] has the field's type. *)
Definition update_resize (childKey : string) (value : Value) (r : Resize)
    : option Resize :=
  match value with
  | v_boolean b =>
      if decide (childKey = "enabled")
      then Some {| enabled := b; width := width r; height := height r;
                   maintainAspectRatio := maintainAspectRatio r |}
      else if decide (childKey = "maintainAspectRatio")
      then Some {| enabled := enabled r; width := width r;
                   height := height r; maintainAspectRatio := b |}
      else None
  | v_number n =>
      if decide (childKey = "width")
      then Some {| enabled := enabled r; width := n; height := height r;
                   maintainAspectRatio := maintainAspectRatio r |}
      else if decide (childKey = "height")
      then Some {| enabled := enabled r; width := width r; height := n;
                   maintainAspectRatio := maintainAspectRatio r |}
      else None
  | v_format _ => None
  end.

Definition update_filters (childKey : string) (value : Value) (f : Filters)
    : option Filters :=
  match value with
  | v_number n =>
      if decide (childKey = "brightness")
      then Some {| brightness := n; contrast := contrast f;
                   saturation := saturation f; blur := blur f |}
      else if decide (childKey = "contrast")
      then Some {| brightness := brightness f; contrast := n;
                   saturation := saturation f; blur := blur f |}
      else if decide (childKey = "saturation")
      then Some {| brightness := brightness f; contrast := contrast f;
                   saturation := n; blur := blur f |}
      else if decide (childKey = "blur")
      then Some {| brightness := brightness f; contrast := contrast f;
                   saturation := saturation f; blur := n |}
      else None
  | _ => None
  end.

(** [{ ...prev, [parentKey]: { ...prev[parentKey], [childKey]: value } }] *)
Definition updateNestedOptions (parentKey : Key) (childKey : string)
    (value : Value) (prev : ProcessingOptions) : option ProcessingOptions :=
  match parentKey with
  | key_resize =>
      r ← update_resize childKey value (resize prev);
      Some {| resize := r; filters := filters prev; format := format prev;
              quality := quality prev |}
  | key_filters =>
      f ← update_filters childKey value (filters prev);
      Some {| resize := resize prev; filters := f; format := format prev;
              quality := quality prev |}
  | key_format | key_quality => None
  end.

End BatchOptions.

(** ** The editor's canvas and sliders *)

Module EditorView.

Import Types.

(** The editor's canvas is created 800 by 600. *)
Definition canvas_width : number := num 800.
Definition canvas_height : number := num 600.










End EditorView.

(** ** [src/lib/supabase.ts] *)

Module Supabase.

Import BatchProcessor.

Definition fallbackUrl : string := "https://placeholder.supabase.co".
Definition fallbackAnonKey : string := "public-anon-key".

(** [supabaseUrl] and [supabaseAnonKey].  An injected global is given
    when it is a string, and is absent when it is undefined or of
    another type. *)
Definition supabaseUrl (injectedUrl : option string) : string :=
  match injectedUrl with
  | Some url => if String.prefix "http" url then url else fallbackUrl
  | None => fallbackUrl
  end.

Definition supabaseAnonKey (injectedAnon : option string) : string :=
  match injectedAnon with
  | Some key => if (0 <? String.length key)%nat then key else fallbackAnonKey
  | None => fallbackAnonKey
  end.

Definition dot : Ascii.ascii := Ascii.ascii_of_nat 46.

(** [s.split('.')] *)
Fixpoint split_dot (s : string) : list string :=
  match s with
  | EmptyString => [""]
  | String c s' =>
      if Ascii.eqb c dot then "" :: split_dot s'
      else match split_dot s' with
           | [] => [String c ""]
           | piece :: pieces => String c piece :: pieces
           end
  end.

(** [pieces.join('.')] *)
Fixpoint join_dot (pieces : list string) : string :=
  match pieces with
  | [] => ""
  | [piece] => piece
  | piece :: pieces' => piece +:+ "." +:+ join_dot pieces'
  end.

(** A string without ['.']. *)
Fixpoint dotless (s : string) : bool :=
  match s with
  | EmptyString => true
  | String c s' => negb (Ascii.eqb c dot) && dotless s'
  end.

(** The fields of a [File] that the code reads. *)
Record File := {
  name : string;
  type : string;
  size : number
}.

(** [file.name.split('.').pop()], as the template literal prints it. *)
Definition fileExt (file : File) : string :=
  from_option id "undefined" (last (split_dot (name file))).

(** [`${userId}/${Date.now()}.${fileExt}`] *)
Definition fileName (userId : string) (now : Z) (file : File) : string :=
  userId +:+ "/" +:+ pretty now +:+ "." +:+ fileExt file.

(** The storage bucket [photos]: the error of an [upload], if any, the
    public URL of a path, and the error of a [remove], if any. *)
Record Storage := {
  upload : string -> File -> option string;
  getPublicUrl : string -> string;
  remove : list string -> option string
}.

Record Uploaded := {
  path : string;
  url : string
}.

Definition uploadImage (storage : Storage) (now : Z) (file : File)
    (userId : string) : Promise Uploaded :=
  let fileName := fileName userId now file in
  match upload storage fileName file with
  | Some error => Rejected error
  | None =>
      Resolved {| path := fileName; url := getPublicUrl storage fileName |}
  end.

Definition deleteImage (storage : Storage) (path : string) : Promise unit :=
  match remove storage [path] with
  | Some error => Rejected error
  | None => Resolved ()
  end.

End Supabase.

(** ** The upload form: [onDrop], [removeFile], [uploadFiles] *)

Module PhotoUpload.

Import Supabase.

(** [file.type.startsWith('image/')] *)
Definition is_image (file : File) : bool := String.prefix "image/" (type file).

(** The row given to [supabase.from('photos').insert]. *)
Record Row := {
  user_id : string;
  title : string;
  file_path : string;
  file_url : string;
  file_size : number;
  mime_type : string
}.

Inductive Event :=
| setUploading (b : bool)
| setUploadProgress (p : number)
| storage_upload (path : string) (file : File)
| photos_insert (row : Row)
| console_error (message : string) (error : string)
| toast_error (message : string)
| toast_success (message : string)
| onUploadComplete (photos : list Types.Photo)
| setSelectedFiles (files : list File).

(** [onDrop]: the new value of [selectedFiles], and the toast if some
    file was not an image. *)
Definition onDrop (acceptedFiles prev : list File)
    : list File * list Event :=
  let imageFiles := filter (λ file, is_image file = true) acceptedFiles in
  (prev ++ imageFiles,
   if bool_decide (length imageFiles ≠ length acceptedFiles)
   then [toast_error "Only image files are supported"] else []).

(** [removeFile]: [prev.filter((_, i) => i !== index)] *)
Definition removeFile (index : nat) (prev : list File) : list File :=
  (filter (λ entry, entry.1 ≠ index) (imap (λ i file, (i, file)) prev)).*2.

(** [file.name.split('.')[0]] *)
Definition title_of (file : File) : string :=
  from_option id "" (head (split_dot (name file))).

(** The storage and the database during an upload: the clock and the
    storage during the [i]-th call of [uploadImage], and what the
    [i]-th [insert(...).select().single()] settles to. *)
Record Backend := {
  now : nat -> Z;
  storage : nat -> Storage;
  insert : nat -> Row -> BatchProcessor.Promise Types.Photo
}.

Definition row_of (userId : string) (file : File) (u : Uploaded) : Row :=
  {| user_id := userId; title := title_of file; file_path := path u;
     file_url := url u; file_size := size file; mime_type := type file |}.

(** [((i + 1) / selectedFiles.length) * 100] *)
Definition progress_after (i total : nat) : number :=
  (num (Z.of_nat i + 1) / num (Z.of_nat total)) * num 100.

(** What the body of the loop does with the file of index [i]: the
    upload to storage, then the insertion of the row. *)
Definition upload_one (b : Backend) (userId : string) (i : nat)
    (file : File) : BatchProcessor.Promise Types.Photo :=
  match uploadImage (storage b i) (now b i) file userId with
  | BatchProcessor.Rejected error => BatchProcessor.Rejected error
  | BatchProcessor.Resolved uploaded =>
      insert b i (row_of userId file uploaded)
  end.

(** The [for] loop of [uploadFiles] from index [i] on: its events, and
    the photos uploaded when it ends, or the error thrown. *)
Fixpoint upload_loop (b : Backend) (userId : string) (total i : nat)
    (rest : list File) (uploadedPhotos : list Types.Photo)
    : list Event * BatchProcessor.Promise (list Types.Photo) :=
  match rest with
  | [] => ([], BatchProcessor.Resolved uploadedPhotos)
  | file :: rest' =>
      let attempt := storage_upload (fileName userId (now b i) file) file in
      match uploadImage (storage b i) (now b i) file userId with
      | BatchProcessor.Rejected error =>
          ([attempt], BatchProcessor.Rejected error)
      | BatchProcessor.Resolved uploaded =>
          let row := row_of userId file uploaded in
          match insert b i row with
          | BatchProcessor.Rejected error =>
              ([attempt; photos_insert row], BatchProcessor.Rejected error)
          | BatchProcessor.Resolved photo =>
              let '(events, result) :=
                upload_loop b userId total (S i) rest'
                  (uploadedPhotos ++ [photo]) in
              ([attempt; photos_insert row;
                setUploadProgress (progress_after i total)] ++ events,
               result)
          end
      end
  end.

(** [uploadFiles], for the signed-in user's id, if any. *)
Definition uploadFiles (user : option string) (selectedFiles : list File)
    (b : Backend) : list Event :=
  match user with
  | None => []
  | Some userId =>
      if (length selectedFiles =? 0)%nat then []
      else
        let '(events, result) :=
          upload_loop b userId (length selectedFiles) 0 selectedFiles [] in
        [setUploading true; setUploadProgress (num 0)]
        ++ events
        ++ match result with
           | BatchProcessor.Resolved uploadedPhotos =>
               [ toast_success
                   ("Successfully uploaded "
                      +:+ pretty (length uploadedPhotos) +:+ " photos");
                 onUploadComplete uploadedPhotos;
                 setSelectedFiles [] ]
           | BatchProcessor.Rejected error =>
               [ console_error "Upload error:" error;
                 toast_error "Failed to upload photos" ]
           end
        ++ [setUploading false; setUploadProgress (num 0)]
  end.

(** What the events of an upload show: the paths written to storage,
    the rows inserted, the lists handed to [onUploadComplete], and the
    new values of [selectedFiles]. *)
Definition storage_paths (es : list Event) : list string :=
  omap (λ e, match e with storage_upload p _ => Some p | _ => None end) es.

Definition inserted_rows (es : list Event) : list Row :=
  omap (λ e, match e with photos_insert r => Some r | _ => None end) es.

Definition completions (es : list Event) : list (list Types.Photo) :=
  omap (λ e, match e with onUploadComplete ps => Some ps | _ => None end) es.

Definition selections (es : list Event) : list (list File) :=
  omap (λ e, match e with setSelectedFiles fs => Some fs | _ => None end) es.

Definition error_toasts (es : list Event) : list string :=
  omap (λ e, match e with toast_error m => Some m | _ => None end) es.

(** The user's actions on the selection, and the selection after a
    sequence of them, starting empty. *)
Inductive Action :=
| drop (acceptedFiles : list File)
| remove_at (index : nat).

Definition act (selectedFiles : list File) (a : Action) : list File :=
  match a with
  | drop acceptedFiles => (onDrop acceptedFiles selectedFiles).1
  | remove_at index => removeFile index selectedFiles
  end.

Definition selection_after (actions : list Action) : list File :=
  foldl act [] actions.

End PhotoUpload.

(** ** Concrete files and backends, for the examples *)

Module UploadExamples.

Import Supabase PhotoUpload.

Definition image (n : string) : File :=
  {| name := n; type := "image/png"; size := num 2048 |}.

(** A storage that refuses the files named in [refused]. *)
Definition bucket (refused : list string) : Storage :=
  {| upload := λ path file,
       if bool_decide (name file ∈ refused)
       then Some "The resource already exists" else None;
     getPublicUrl := λ path, "https://cdn.example/" +:+ path;
     remove := λ paths, None |}.

(** The photo the database returns for a row. *)
Definition stored (i : nat) (row : Row) : Types.Photo :=
  {| Types.id := "id-" +:+ pretty i; Types.user_id := user_id row;
     Types.title := title row; Types.description := None;
     Types.file_path := file_path row; Types.file_url := file_url row;
     Types.file_size := file_size row; Types.mime_type := mime_type row;
     Types.created_at := "2024-01-01"; Types.updated_at := "2024-01-01" |}.

(** A backend whose storage refuses the files named in [refused] and
    whose database rejects the rows titled as in [rejected]. *)
Definition backend (refused rejected : list string) : Backend :=
  {| now := λ i, (1700000000000 + Z.of_nat i)%Z;
     storage := λ _, bucket refused;
     insert := λ i row,
       if bool_decide (title row ∈ rejected)
       then BatchProcessor.Rejected "new row violates row-level security"
       else BatchProcessor.Resolved (stored i row) |}.

End UploadExamples.

(** ** The photo grid: selection and deletion *)

Module PhotoGrid.

Import Supabase.

(** [toggleSelection]: the argument of [onSelectionChange]. *)
Definition toggleSelection (photoId : string) (selectedPhotos : list string)
    : list string :=
  if bool_decide (photoId ∈ selectedPhotos)
  then filter (λ id, id ≠ photoId) selectedPhotos
  else selectedPhotos ++ [photoId].

(** [selectAll] and [clearSelection]: the argument of
    [onSelectionChange]. *)
Definition selectAll (filteredPhotos : list Types.Photo) : list string :=
  Types.id <$> filteredPhotos.

Definition clearSelection : list string := [].

Inductive Event :=
| storage_remove (path : string)
| photos_delete (id : string)
| onPhotosChange (photos : list Types.Photo)
| console_error (message : string) (error : string)
| toast_error (message : string)
| toast_success (message : string).

(** [handleDelete], for the signed-in user, if any; [delete_row] is the
    error, if any, of [supabase.from('photos').delete().eq('id', id)]. *)
Definition handleDelete (user : option string) (storage : Storage)
    (delete_row : string -> option string) (photos : list Types.Photo)
    (photo : Types.Photo) : list Event :=
  match user with
  | None => []
  | Some _ =>
      storage_remove (Types.file_path photo)
      :: match deleteImage storage (Types.file_path photo) with
         | BatchProcessor.Rejected error =>
             [ console_error "Delete error:" error;
               toast_error "Failed to delete photo" ]
         | BatchProcessor.Resolved _ =>
             photos_delete (Types.id photo)
             :: match delete_row (Types.id photo) with
                | Some error =>
                    [ console_error "Delete error:" error;
                      toast_error "Failed to delete photo" ]
                | None =>
                    [ onPhotosChange
                        (filter (λ p, Types.id p ≠ Types.id photo) photos);
                      toast_success "Photo deleted successfully" ]
                end
         end
  end.

(** The lists handed to [onPhotosChange]. *)
Definition photo_changes (es : list Event) : list (list Types.Photo) :=
  omap (λ e, match e with onPhotosChange ps => Some ps | _ => None end) es.

End PhotoGrid.

(** ** The gallery page *)

Module Gallery.

(** The state of the page that the batch dialog depends on. *)
Record State := {
  photos : list Types.Photo;
  selectedPhotos : list string;
  showBatchProcessor : bool
}.

(** [selectedPhotoObjects], the [photos] prop of the batch dialog. *)
Definition selectedPhotoObjects (st : State) : list Types.Photo :=
  filter (λ photo, Types.id photo ∈ selectedPhotos st) (photos st).

(** [handleBatchProcess]: the new state, and the error toast if any. *)
Definition handleBatchProcess (st : State) : State * list string :=
  if (length (selectedPhotos st) =? 0)%nat
  then (st, ["Please select photos to process"])
  else ({| photos := photos st; selectedPhotos := selectedPhotos st;
           showBatchProcessor := true |}, []).

(** [handleUploadComplete], [handlePhotosChange], and
    [onSelectionChange={setSelectedPhotos}]. *)
Definition handleUploadComplete (newPhotos : list Types.Photo) (st : State)
    : State :=
  {| photos := newPhotos ++ photos st; selectedPhotos := selectedPhotos st;
     showBatchProcessor := showBatchProcessor st |}.

Definition handlePhotosChange (updatedPhotos : list Types.Photo) (st : State)
    : State :=
  {| photos := updatedPhotos; selectedPhotos := selectedPhotos st;
     showBatchProcessor := showBatchProcessor st |}.

Definition setSelectedPhotos (photoIds : list string) (st : State) : State :=
  {| photos := photos st; selectedPhotos := photoIds;
     showBatchProcessor := showBatchProcessor st |}.

(** The page after the events of a [handleDelete] of the grid: only
    [onPhotosChange] reaches the page. *)
Definition after_delete (es : list PhotoGrid.Event) (st : State) : State :=
  foldl (λ s e, match e with
                | PhotoGrid.onPhotosChange ps => handlePhotosChange ps s
                | _ => s
                end) st es.

End Gallery.

(** * Properties *)

(** ** The loop, as a function of the outcomes of its items *)

Module Loop.

Import Dom BatchProcessor Observed.

Lemma prefix_app (s t : string) : String.prefix s (s +:+ t) = true.
Proof.
  induction s as [|a s IH]; simpl; [by destruct t|].
  by destruct (Ascii.ascii_dec a a).
Qed.

Section Fixed_run.

Context (w : World) (options : ProcessingOptions) (total : nat).

Lemma loop_body_events i photo r :
  events (loop_body w options total i photo r)
  = events r ++ item_events w options total i photo.
Proof.
  unfold loop_body, item_events.
  destruct (processImage (item w i) options photo); simpl;
    by rewrite <-?(assoc_L (++)).
Qed.

Lemma loop_body_processed i photo r :
  processedPhotos (loop_body w options total i photo r)
  = processedPhotos r
      ++ succeeded options [(photo, processImage (item w i) options photo)].
Proof.
  unfold loop_body, succeeded.
  destruct (processImage (item w i) options photo); simpl;
    by rewrite ?(right_id_L [] (++)).
Qed.

Lemma loop_body_zip i photo r :
  zip (loop_body w options total i photo r)
  = add_files (zip r)
      (succeeded options [(photo, processImage (item w i) options photo)]).
Proof.
  unfold loop_body, succeeded, add_files.
  by destruct (processImage (item w i) options photo).
Qed.

Lemma for_loop_events rest : ∀ i r,
  events (for_loop w options total i rest r)
  = events r ++ loop_events w options total i rest.
Proof.
  induction rest as [|photo rest IH]; intros i r; simpl.
  - by rewrite (right_id_L [] (++)).
  - by rewrite IH, loop_body_events, <-(assoc_L (++)).
Qed.

Lemma succeeded_cons o os :
  succeeded options (o :: os)
  = succeeded options [o] ++ succeeded options os.
Proof. unfold succeeded; simpl. by destruct (o.2). Qed.

Lemma for_loop_processed rest : ∀ i r,
  processedPhotos (for_loop w options total i rest r)
  = processedPhotos r ++ succeeded options (outcomes w options i rest).
Proof.
  induction rest as [|photo rest IH]; intros i r.
  - simpl. by rewrite (right_id_L [] (++)).
  - cbn [for_loop outcomes].
    rewrite IH, loop_body_processed, <-(assoc_L (++)).
    by rewrite <-succeeded_cons.
Qed.

Lemma for_loop_zip rest : ∀ i r,
  zip (for_loop w options total i rest r)
  = add_files (zip r) (succeeded options (outcomes w options i rest)).
Proof.
  induction rest as [|photo rest IH]; intros i r; [done|].
  cbn [for_loop outcomes].
  rewrite IH, loop_body_zip,
    (succeeded_cons (photo, _) (outcomes w options (S i) rest)).
  unfold add_files. by rewrite foldl_app.
Qed.

Lemma for_loop_app l1 l2 : ∀ i r,
  for_loop w options total i (l1 ++ l2) r
  = for_loop w options total (i + length l1) l2
      (for_loop w options total i l1 r).
Proof.
  induction l1 as [|photo l1 IH]; intros i r; simpl.
  - by rewrite Nat.add_0_r.
  - by rewrite IH, Nat.add_succ_r.
Qed.

(** *** What the events of the loop show *)

Lemma current_photos_clicks cs :
  current_photos (cs ≫= click_while_processing) = [].
Proof. induction cs as [|[] cs IH]; simpl; done. Qed.

Lemma item_failure_toasts_clicks cs :
  item_failure_toasts (cs ≫= click_while_processing) = [].
Proof. induction cs as [|[] cs IH]; simpl; done. Qed.

Lemma saved_archives_clicks cs :
  saved_archives (cs ≫= click_while_processing) = [].
Proof. induction cs as [|[] cs IH]; simpl; done. Qed.

Lemma current_photos_loop rest : ∀ i,
  current_photos (loop_events w options total i rest)
  = Types.title <$> rest.
Proof.
  induction rest as [|photo rest IH]; intros i; simpl; [done|].
  unfold current_photos in *. rewrite !omap_app, IH.
  fold (current_photos (clicks w i ≫= click_while_processing)).
  rewrite current_photos_clicks.
  by destruct (processImage (item w i) options photo).
Qed.

Lemma item_failure_toasts_loop rest : ∀ i,
  item_failure_toasts (loop_events w options total i rest)
  = failed_to_process <$> failed (outcomes w options i rest).
Proof.
  induction rest as [|photo rest IH]; intros i; simpl; [done|].
  unfold item_failure_toasts in *. rewrite !omap_app, IH.
  fold (item_failure_toasts (clicks w i ≫= click_while_processing)).
  rewrite item_failure_toasts_clicks.
  destruct (processImage (item w i) options photo); simpl; [done|].
  unfold failed_to_process at 1. by rewrite prefix_app.
Qed.

Lemma saved_archives_loop rest : ∀ i,
  saved_archives (loop_events w options total i rest) = [].
Proof.
  induction rest as [|photo rest IH]; intros i; simpl; [done|].
  unfold saved_archives in *. rewrite !omap_app, IH.
  fold (saved_archives (clicks w i ≫= click_while_processing)).
  rewrite saved_archives_clicks.
  by destruct (processImage (item w i) options photo).
Qed.

Lemma length_outcomes rest : ∀ i,
  length (outcomes w options i rest) = length rest.
Proof. induction rest; intros i; simpl; auto. Qed.

Lemma succeeded_failed_length os :
  (length (succeeded options os) + length (failed os))%nat = length os.
Proof.
  induction os as [|[p o] os IH]; simpl; [done|].
  unfold succeeded, failed in *; simpl. destruct o; simpl; lia.
Qed.

End Fixed_run.

End Loop.

(** ** A whole run *)

Module Runs.

Import Dom BatchProcessor Observed Loop.

Ltac unfold_end :=
  unfold finally, deliver, emit;
  repeat match goal with
         | |- context [if ?c then _ else _] => destruct c
         | |- context [generateAsync ?w] => destruct (generateAsync w)
         end; simpl.

Section Fixed_world.

Context (w : World) (options : ProcessingOptions).

Lemma end_processed r :
  processedPhotos (finally (deliver w r)) = processedPhotos r.
Proof. by unfold_end. Qed.

Lemma end_zip r : zip (finally (deliver w r)) = zip r.
Proof. by unfold_end. Qed.

Lemma end_current_photos r :
  current_photos (events (finally (deliver w r)))
  = current_photos (events r) ++ [""].
Proof.
  unfold_end; unfold current_photos;
    rewrite <-?(assoc_L (++)), omap_app; reflexivity.
Qed.

Lemma end_item_failure_toasts r :
  item_failure_toasts (events (finally (deliver w r)))
  = item_failure_toasts (events r).
Proof.
  unfold_end; unfold item_failure_toasts;
    rewrite <-?(assoc_L (++)), omap_app; cbn;
    by rewrite (right_id_L [] (++)).
Qed.

Lemma end_saved_archives r :
  saved_archives (events (finally (deliver w r)))
  = saved_archives (events r)
      ++ (if (0 <? length (processedPhotos r))%nat
             && resolves (generateAsync w)
          then [zip r] else []).
Proof.
  unfold finally, deliver, emit.
  destruct (0 <? length (processedPhotos r))%nat, (generateAsync w);
    simpl; unfold saved_archives;
    rewrite <-?(assoc_L (++)), omap_app; reflexivity.
Qed.

Lemma end_events_subseteq r e :
  e ∈ events r → e ∈ events (finally (deliver w r)).
Proof. intros He. unfold_end; rewrite !elem_of_app; tauto. Qed.

Lemma run_unfold photos :
  photos ≠ [] →
  startBatchProcessing w options photos
  = finally (deliver w (for_loop w options (length photos) 0 photos start)).
Proof. by destruct photos. Qed.

Lemma run_processed photos :
  processedPhotos (startBatchProcessing w options photos)
  = succeeded options (outcomes w options 0 photos).
Proof.
  destruct photos as [|p photos]; [done|].
  rewrite run_unfold, end_processed, for_loop_processed; done.
Qed.

Lemma run_zip photos :
  zip (startBatchProcessing w options photos)
  = add_files ∅ (succeeded options (outcomes w options 0 photos)).
Proof.
  destruct photos as [|p photos]; [done|].
  rewrite run_unfold, end_zip, for_loop_zip; done.
Qed.

Lemma run_current_photos photos :
  photos ≠ [] →
  current_photos (events (startBatchProcessing w options photos))
  = (Types.title <$> photos) ++ [""].
Proof.
  intros Hne. rewrite run_unfold, end_current_photos, for_loop_events by done.
  unfold current_photos at 1. rewrite omap_app.
  fold (current_photos (loop_events w options (length photos) 0 photos)).
  by rewrite current_photos_loop.
Qed.

Lemma run_item_failure_toasts photos :
  item_failure_toasts (events (startBatchProcessing w options photos))
  = failed_to_process <$> failed (outcomes w options 0 photos).
Proof.
  destruct photos as [|p photos]; [done|].
  rewrite run_unfold, end_item_failure_toasts, for_loop_events by done.
  unfold item_failure_toasts at 1. rewrite omap_app.
  fold (item_failure_toasts
          (loop_events w options (length (p :: photos)) 0 (p :: photos))).
  by rewrite item_failure_toasts_loop.
Qed.

Lemma run_saved_archives photos :
  let r := startBatchProcessing w options photos in
  saved_archives (events r)
  = if (0 <? length (processedPhotos r))%nat && resolves (generateAsync w)
    then [zip r] else [].
Proof.
  destruct photos as [|p photos]; [done|]. cbv zeta.
  rewrite run_unfold, end_saved_archives, end_processed, end_zip by done.
  rewrite for_loop_events. unfold saved_archives at 1. rewrite omap_app.
  fold (saved_archives
          (loop_events w options (length (p :: photos)) 0 (p :: photos))).
  by rewrite saved_archives_loop.
Qed.

Lemma run_recorded_results photos :
  recorded_results (startBatchProcessing w options photos)
  = length photos.
Proof.
  unfold recorded_results.
  rewrite run_processed, run_item_failure_toasts, length_fmap.
  by rewrite succeeded_failed_length, length_outcomes.
Qed.

(** The outcome of the item of index [j]. *)
Lemma outcomes_lookup rest : ∀ i j photo,
  rest !! j = Some photo →
  (photo, processImage (item w (i + j)) options photo)
    ∈ outcomes w options i rest.
Proof.
  induction rest as [|p rest IH]; intros i [|j] photo Hj; simplify_eq/=.
  - rewrite Nat.add_0_r. apply list_elem_of_here.
  - apply list_elem_of_further. rewrite Nat.add_succ_r. by apply (IH (S i)).
Qed.

Lemma loop_events_lookup total rest : ∀ i j photo e,
  rest !! j = Some photo →
  e ∈ item_events w options total (i + j) photo →
  e ∈ loop_events w options total i rest.
Proof.
  induction rest as [|p rest IH]; intros i [|j] photo e Hj He;
    try discriminate; cbn [loop_events]; rewrite elem_of_app.
  - left. injection Hj as ->. by rewrite Nat.add_0_r in He.
  - right. apply (IH (S i) j photo); [done|].
    by rewrite Nat.add_succ_r in He.
Qed.

Lemma run_item_event photos j photo e :
  photos !! j = Some photo →
  e ∈ item_events w options (length photos) j photo →
  e ∈ events (startBatchProcessing w options photos).
Proof.
  intros Hj He. assert (photos ≠ []) by (by intros ->).
  rewrite run_unfold by done. apply end_events_subseteq.
  rewrite for_loop_events, elem_of_app. right.
  by apply (loop_events_lookup _ photos 0 j photo).
Qed.

Lemma run_item_outcome photos j photo :
  photos !! j = Some photo →
  let r := startBatchProcessing w options photos in
  match processImage (item w j) options photo with
  | Resolved blob => (fileName options photo, blob) ∈ processedPhotos r
  | Rejected message =>
      console_error (failed_to_process photo +:+ ":") message ∈ events r
      ∧ toast_error (failed_to_process photo) ∈ events r
  end.
Proof.
  intros Hj r.
  destruct (processImage (item w j) options photo) as [blob|message] eqn:Hp.
  - subst r. rewrite run_processed. unfold succeeded.
    apply list_elem_of_omap.
    exists (photo, processImage (item w j) options photo). split.
    + by apply (outcomes_lookup photos 0 j).
    + simpl. by rewrite Hp.
  - split; apply (run_item_event photos j photo); try done;
      unfold item_events; rewrite Hp; set_solver.
Qed.

End Fixed_world.

End Runs.

(** ** The batch runner *)

Module BatchRunner.

Import Dom BatchProcessor Observed Loop Runs Examples.

(** Membership in a log that has been computed. *)
Ltac find_event :=
  repeat first [apply list_elem_of_here | apply list_elem_of_further].

(** *** Failure isolation *)

(** C2.  When the transform of the photo of index [i] rejects (no 2D
    context, image load error, or no blob from the encoder), the run
    logs the failure on the console and as an error toast and goes on:
    every later photo [j] is still processed, and its own outcome
    decides what the run keeps of it, an entry of [processedPhotos]
    for a success and an error toast for a failure. *)
Theorem failure_does_not_abort_batch (w : World)
    (options : ProcessingOptions) (photos : list Types.Photo) (i : nat)
    (photo : Types.Photo) (message : string) :
  photos !! i = Some photo →
  processImage (item w i) options photo = Rejected message →
  let r := startBatchProcessing w options photos in
  console_error (failed_to_process photo +:+ ":") message ∈ events r
  ∧ toast_error (failed_to_process photo) ∈ events r
  ∧ ∀ j next, (i < j)%nat → photos !! j = Some next →
      setCurrentPhoto (Types.title next) ∈ events r
      ∧ match processImage (item w j) options next with
        | Resolved blob => (fileName options next, blob) ∈ processedPhotos r
        | Rejected _ => toast_error (failed_to_process next) ∈ events r
        end.
Proof.
  intros Hi Hfail r.
  pose proof (run_item_outcome w options photos i photo Hi) as Hout.
  cbv zeta in Hout. rewrite Hfail in Hout. destruct Hout as [Hc Ht].
  split; [done|]. split; [done|].
  intros j next _ Hj. split.
  - apply (run_item_event w options photos j next _ Hj).
    unfold item_events. apply list_elem_of_here.
  - pose proof (run_item_outcome w options photos j next Hj) as Hnext.
    cbv zeta in Hnext.
    destruct (processImage (item w j) options next); [done|].
    by destruct Hnext.
Qed.

Lemma failure_does_not_abort_batch_witness :
  let w := world (browser 100 50 ["B"]) no_clicks in
  let options := resize_to 640 640 true in
  let r := startBatchProcessing w options [photo "A"; photo "B"; photo "C"] in
  console_error "Failed to process B:" "Failed to load image" ∈ events r
  ∧ toast_error "Failed to process B" ∈ events r
  ∧ ∀ j next, (1 < j)%nat →
      [photo "A"; photo "B"; photo "C"] !! j = Some next →
      setCurrentPhoto (Types.title next) ∈ events r
      ∧ match processImage (item w j) options next with
        | Resolved blob => (fileName options next, blob) ∈ processedPhotos r
        | Rejected _ => toast_error (failed_to_process next) ∈ events r
        end.
Proof.
  intros w options.
  apply (failure_does_not_abort_batch w options
           [photo "A"; photo "B"; photo "C"] 1 (photo "B")
           "Failed to load image"); reflexivity.
Defined.

(** *** The results and the archive *)

Lemma add_files_size_le (l : list (string * Blob)) : ∀ z : gmap string Blob,
  (size (add_files z l) ≤ size z + length l)%nat.
Proof.
  induction l as [|[n b] l IH]; intros z; simpl; [lia|].
  etrans; [apply IH|]. rewrite map_size_insert.
  destruct (z !! n); simpl; lia.
Qed.

Lemma add_files_size_fresh (l : list (string * Blob)) :
  ∀ z : gmap string Blob,
  NoDup l.*1 → (∀ n, n ∈ l.*1 → z !! n = None) →
  size (add_files z l) = (size z + length l)%nat.
Proof.
  induction l as [|[n b] l IH]; intros z Hnd Hfresh; simpl; [lia|].
  apply NoDup_cons in Hnd as [Hn Hnd]. rewrite IH; [|done|].
  - rewrite map_size_insert_None; [lia|]. apply Hfresh, list_elem_of_here.
  - intros n' Hn'. rewrite lookup_insert_ne.
    + by apply Hfresh, list_elem_of_further.
    + by intros ->.
Qed.

Lemma add_files_dom (l : list (string * Blob)) : ∀ z : gmap string Blob,
  dom (add_files z l) = list_to_set l.*1 ∪ dom z.
Proof.
  induction l as [|[n b] l IH]; intros z; simpl.
  - by rewrite (left_id_L ∅ (∪)).
  - rewrite IH, dom_insert_L, !(assoc_L (∪)). f_equal. apply (comm_L (∪)).
Qed.

(** The three photos A, B, C of which B does not load; and two photos of
    the same title, which both transform. *)
Lemma results_list_counterexample :
  let w := world (browser 100 50 ["B"]) no_clicks in
  let options := resize_to 640 640 true in
  let abc := [photo "A"; photo "B"; photo "C"] in
  let r := startBatchProcessing w options abc in
  let twins := [photo "A"; photo "A"] in
  let r2 := startBatchProcessing w options twins in
  (length (failed (outcomes w options 0 abc)) = 1%nat
   ∧ processedPhotos r
     = [("A.jpeg", "image/jpeg 640x320"); ("C.jpeg", "image/jpeg 640x320")]
   ∧ length (processedPhotos r) ≠ length abc)
  ∧ (length (failed (outcomes w options 0 twins)) = 0%nat
     ∧ length (processedPhotos r2) = 2%nat
     ∧ saved_archives (events r2) = [zip r2]
     ∧ size (zip r2) = 1%nat
     ∧ size (zip r2) ≠ (length twins - 0)%nat).
Proof. vm_compute. repeat split; congruence. Qed.

(** C3 (as amended).  In a run over N photos of which exactly K reject,
    [processedPhotos] holds the output entries of the N - K photos that
    resolve, in input order, and nothing for the others; each of the K
    failures shows as one error toast, in input order, so that every
    photo has exactly one of the two; and the archive has one entry per
    distinct output file name, hence at most N - K entries, and exactly
    N - K when the output names are pairwise distinct. *)
Theorem partial_failure_results (w : World) (options : ProcessingOptions)
    (photos : list Types.Photo) (K : nat) :
  length (failed (outcomes w options 0 photos)) = K →
  let r := startBatchProcessing w options photos in
  let N := length photos in
  processedPhotos r = succeeded options (outcomes w options 0 photos)
  ∧ length (processedPhotos r) = (N - K)%nat
  ∧ item_failure_toasts (events r)
    = failed_to_process <$> failed (outcomes w options 0 photos)
  ∧ length (item_failure_toasts (events r)) = K
  ∧ recorded_results r = N
  ∧ dom (zip r) = list_to_set (processedPhotos r).*1
  ∧ (size (zip r) ≤ N - K)%nat
  ∧ (NoDup (processedPhotos r).*1 → size (zip r) = (N - K)%nat).
Proof.
  intros HK r N. subst r N.
  pose proof (succeeded_failed_length options (outcomes w options 0 photos))
    as Hlen.
  rewrite length_outcomes, HK in Hlen.
  rewrite run_processed, run_item_failure_toasts, run_zip, length_fmap.
  repeat split; try done; try lia.
  - rewrite run_recorded_results. done.
  - by rewrite add_files_dom, dom_empty_L, (right_id_L ∅ (∪)).
  - etrans; [apply add_files_size_le|]. rewrite map_size_empty. lia.
  - intros Hnd. rewrite add_files_size_fresh, map_size_empty; [lia|done|].
    intros n _. apply lookup_empty.
Qed.

Lemma partial_failure_results_witness :
  let w := world (browser 100 50 ["B"]) no_clicks in
  let options := resize_to 640 640 true in
  let photos := [photo "A"; photo "B"; photo "C"] in
  let r := startBatchProcessing w options photos in
  processedPhotos r = succeeded options (outcomes w options 0 photos)
  ∧ length (processedPhotos r) = (3 - 1)%nat
  ∧ item_failure_toasts (events r)
    = failed_to_process <$> failed (outcomes w options 0 photos)
  ∧ length (item_failure_toasts (events r)) = 1%nat
  ∧ recorded_results r = 3%nat
  ∧ dom (zip r) = list_to_set (processedPhotos r).*1
  ∧ (size (zip r) ≤ 3 - 1)%nat
  ∧ (NoDup (processedPhotos r).*1 → size (zip r) = (3 - 1)%nat).
Proof.
  intros w options photos.
  apply (partial_failure_results w options photos 1). reflexivity.
Defined.

(** *** The archive of a run without a success *)

(** One photo, which does not load: no archive reaches [saveAs], and in
    particular not an empty one. *)
Lemma empty_archive_counterexample :
  let w := world (browser 100 50 ["A"]) no_clicks in
  let r := startBatchProcessing w defaultOptions [photo "A"] in
  processedPhotos r = []
  ∧ saved_archives (events r) = []
  ∧ saved_archives (events r) ≠ [∅].
Proof. vm_compute. repeat split; congruence. Qed.

(** C4 (as amended).  An archive is generated and handed to [saveAs]
    exactly when at least one photo was processed (the guard
    [processedPhotos.length > 0]) and [generateAsync] resolves; it is
    then the archive of the successes, which is not empty.  A run
    without a success, and a run without photos, deliver no archive at
    all. *)
Theorem archive_only_after_a_success (w : World)
    (options : ProcessingOptions) (photos : list Types.Photo) :
  let r := startBatchProcessing w options photos in
  saved_archives (events r)
  = (if bool_decide (processedPhotos r ≠ [])
               && resolves (generateAsync w)
     then [zip r] else [])
  ∧ (processedPhotos r = [] → saved_archives (events r) = [])
  ∧ (∀ a, a ∈ saved_archives (events r) → a ≠ ∅).
Proof.
  intros r.
  assert (saved_archives (events r)
          = if bool_decide (processedPhotos r ≠ [])
               && resolves (generateAsync w)
            then [zip r] else []) as Hsaved.
  { subst r. rewrite (run_saved_archives w options photos).
    by destruct (processedPhotos (startBatchProcessing w options photos)). }
  split; [done|]. split.
  - intros Hnone. by rewrite Hsaved, Hnone.
  - intros a. rewrite Hsaved.
    destruct (processedPhotos r) as [|[n b] l] eqn:Hp;
      [by intros ?%not_elem_of_nil|].
    simpl. destruct (generateAsync w); simpl; [|by intros ?%not_elem_of_nil].
    intros ->%list_elem_of_singleton Hempty.
    assert (n ∈ dom (zip r)) as Hn.
    { subst r. rewrite run_zip, add_files_dom, <-run_processed, Hp.
      simpl. by apply elem_of_union_l, elem_of_union_l, elem_of_singleton. }
    rewrite Hempty, dom_empty_L in Hn. by apply not_elem_of_empty in Hn.
Qed.

Lemma archive_only_after_a_success_witness :
  let w := world (browser 100 50 ["A"]) no_clicks in
  let r := startBatchProcessing w defaultOptions [photo "A"] in
  processedPhotos r = [] ∧ saved_archives (events r) = [].
Proof.
  intros w r. split; [reflexivity|].
  destruct (archive_only_after_a_success w defaultOptions [photo "A"])
    as (_ & Hnone & _).
  apply Hnone. reflexivity.
Defined.

(** *** Options out of range *)

(** The width typed into the resize form is 0: the options are out of
    range, and yet both photos are loaded and drawn; each of them then
    fails on its own, at the encoding of an empty canvas. *)
Lemma invalid_options_counterexample :
  let w := world (browser 100 50 []) no_clicks in
  let options := resize_to 0 480 false in
  let r := startBatchProcessing w options [photo "A"; photo "B"] in
  valid_spec options = false
  ∧ current_photos (events r) = ["A"; "B"; ""]
  ∧ item_failure_toasts (events r)
    = ["Failed to process A"; "Failed to process B"]
  ∧ console_error "Failed to process A:" "Failed to process image" ∈ events r
  ∧ recorded_results r ≠ 0%nat.
Proof.
  vm_compute. repeat split; try congruence. find_event.
Qed.

(** C5 (as amended).  The runner does not validate the options.  For
    every value of the options, in range or not, a run over a non-empty
    list of photos calls [setCurrentPhoto] for each photo in turn (and
    once more, with the empty title, in [finally]), records one result
    per photo, and never ends before the last photo: options out of
    range can only show as failures of single items. *)
Theorem options_are_not_validated (w : World) (options : ProcessingOptions)
    (photos : list Types.Photo) :
  photos ≠ [] →
  let r := startBatchProcessing w options photos in
  current_photos (events r) = (Types.title <$> photos) ++ [""]
  ∧ recorded_results r = length photos
  ∧ (valid_spec options = false →
     ∃ photo, head photos = Some photo
              ∧ setCurrentPhoto (Types.title photo) ∈ events r).
Proof.
  intros Hne r. subst r.
  rewrite run_current_photos, run_recorded_results by done.
  split; [done|]. split; [done|]. intros _.
  destruct photos as [|photo photos]; [done|]. exists photo. split; [done|].
  apply (run_item_event w options (photo :: photos) 0 photo); [done|].
  apply list_elem_of_here.
Qed.

Lemma options_are_not_validated_witness :
  let w := world (browser 100 50 []) no_clicks in
  let options := resize_to 0 480 false in
  let photos := [photo "A"; photo "B"] in
  let r := startBatchProcessing w options photos in
  current_photos (events r) = (Types.title <$> photos) ++ [""]
  ∧ recorded_results r = length photos
  ∧ (valid_spec options = false →
     ∃ photo, head photos = Some photo
              ∧ setCurrentPhoto (Types.title photo) ∈ events r).
Proof.
  intros w options photos.
  apply (options_are_not_validated w options photos). discriminate.
Defined.

(** *** Clicks during a run *)



End BatchRunner.

(** ** The output dimensions *)

Module Geometry.

Import Dom BatchProcessor Observed Examples.

Lemma num_pos (z : Z) : (0 < z)%Z → num 0 < num z.
Proof. intros Hz. unfold num. by rewrite <-Z2Qc_inj_lt. Qed.

Lemma num_nonzero (z : Z) : (0 < z)%Z → num z ≠ num 0.
Proof. intros Hz Heq. apply Z2Qc_inj in Heq. lia. Qed.

Lemma Qcdiv_pos (x y : number) : num 0 < x → num 0 < y → num 0 < x / y.
Proof. intros Hx Hy. apply Qcmult_pos_pos; [done|by apply Qcinv_pos]. Qed.

Lemma landscape_decide (w h : Z) :
  bool_decide (num h < num w) = bool_decide (h < w)%Z.
Proof. apply bool_decide_ext. unfold num. by rewrite <-Z2Qc_inj_lt. Qed.








End Geometry.

(** ** The two filter pipelines *)

Module Tone.

Import Dom BatchProcessor Observed.




Section Editor.

Context (activeFilters : Types.PresetFilters).






End Editor.




End Tone.

(** ** The neutral filter *)

Module Neutral.

Import Dom BatchProcessor Canvas2D.

Lemma clamp_in_range (x : number) : num 0 ≤ x → x ≤ num 1 → clamp x = x.
Proof.
  intros H0 H1. unfold clamp.
  rewrite bool_decide_eq_false_2 by (by apply Qcle_not_lt).
  by rewrite bool_decide_eq_false_2 by (by apply Qcle_not_lt).
Qed.

Lemma linear_neutral (p : Pixel) :
  in_gamut p → linear (num 1) (num 0) p = p.
Proof.
  intros ([? ?] & [? ?] & [? ?]). destruct p as [r g b a]; simpl in *.
  unfold linear; simpl. unfold num. rewrite Z2Qc_inj_1, Z2Qc_inj_0.
  rewrite !Qcmult_1_l, !Qcplus_0_r, !clamp_in_range; done.
Qed.

Lemma saturate_neutral (p : Pixel) :
  in_gamut p → saturate_matrix (num 1) p = p.
Proof.
  intros ([? ?] & [? ?] & [? ?]). destruct p as [r g b a]; simpl in *.
  unfold saturate_matrix; simpl.
  assert (k 213 + k 787 * num 1 = 1) as -> by compute_done.
  assert (k 715 - k 715 * num 1 = Q2Qc 0) as -> by compute_done.
  assert (k 72 - k 72 * num 1 = Q2Qc 0) as -> by compute_done.
  assert (k 213 - k 213 * num 1 = Q2Qc 0) as -> by compute_done.
  assert (k 715 + k 285 * num 1 = 1) as -> by compute_done.
  assert (k 72 + k 928 * num 1 = 1) as -> by compute_done.
  rewrite !Qcmult_1_l, !Qcmult_0_l, !Qcplus_0_r, !Qcplus_0_l.
  rewrite !clamp_in_range; done.
Qed.

Lemma fmap_neutral (f : Pixel → Pixel) (b : Bitmap) :
  (∀ p, in_gamut p → f p = p) → Forall in_gamut b → f <$> b = b.
Proof.
  intros Hf Hb. induction Hb as [|p b Hp Hb IH]; [done|].
  by rewrite fmap_cons, Hf, IH.
Qed.

(** C8.  With brightness, contrast, saturation and blur all at 0, what
    [processImage] draws on its canvas is, pixel for pixel, what it
    would draw with [ctx.filter] left at [none]: the filter it sets is
    [brightness(100%) contrast(100%) saturate(100%) blur(0px)], each
    function of which leaves every pixel of the resampled image as it
    is. *)
Theorem neutral_tone_is_identity (rd : Renderer)
    (options : ProcessingOptions) (naturalWidth naturalHeight : Z)
    (img : Bitmap) :
  brightness (filters options) = num 0 →
  contrast (filters options) = num 0 →
  saturation (filters options) = num 0 →
  blur (filters options) = num 0 →
  let canvas := prepare_canvas options naturalWidth naturalHeight in
  Forall in_gamut
    (resample rd img (dWidth (drawn canvas)) (dHeight (drawn canvas))) →
  content rd canvas img = content rd (without_filter canvas) img.
Proof.
  intros Hb Hc Hs Hbl canvas. subst canvas.
  unfold content, prepare_canvas, filter_value.
  destruct (calculate_dimensions options naturalWidth naturalHeight)
    as [W H]. simpl. rewrite Hb, Hc, Hs, Hbl. intros Hgamut.
  assert ((num 100 + num 0) / num 100 = num 1) as -> by compute_done.
  assert (num 1 / num 2 - num 1 / num 2 = num 0) as -> by compute_done.
  rewrite bool_decide_eq_true_2 by done.
  do 2 rewrite (fmap_neutral (linear (num 1) (num 0)) (resample rd img W H))
    by auto using linear_neutral.
  by rewrite (fmap_neutral (saturate_matrix (num 1)))
    by auto using saturate_neutral.
Qed.

Lemma neutral_tone_is_identity_witness :
  let canvas := prepare_canvas defaultOptions 2 1 in
  content Examples.renderer canvas Examples.two_pixels
  = content Examples.renderer (without_filter canvas) Examples.two_pixels.
Proof.
  apply (neutral_tone_is_identity Examples.renderer defaultOptions 2 1
           Examples.two_pixels); try reflexivity.
  compute_done.
Defined.

End Neutral.

(** ** More on the batch runner: progress, reset, archive, toasts *)

Module RunnerLogs.

Import Dom BatchProcessor Observed Logs Loop Runs Examples.

Section Fixed_run.

Context (w : World) (options : ProcessingOptions) (total : nat).

Lemma progress_values_clicks cs :
  progress_values (cs ≫= click_while_processing) = [].
Proof. induction cs as [|[] cs IH]; simpl; done. Qed.

Lemma error_toasts_clicks cs :
  error_toasts (cs ≫= click_while_processing) = [].
Proof. induction cs as [|[] cs IH]; simpl; done. Qed.

Lemma success_toasts_clicks cs :
  success_toasts (cs ≫= click_while_processing) = [].
Proof. induction cs as [|[] cs IH]; simpl; done. Qed.

Lemma progress_values_loop rest : ∀ i,
  progress_values (loop_events w options total i rest)
  = (λ k, progress_after k total) <$> seq i (length rest).
Proof.
  induction rest as [|photo rest IH]; intros i; [done|].
  cbn [loop_events length seq]. rewrite fmap_cons, <-IH.
  unfold progress_values, item_events. rewrite omap_app. cbn [omap list_omap].
  rewrite !omap_app.
  fold (progress_values (clicks w i ≫= click_while_processing)).
  rewrite progress_values_clicks.
  by destruct (processImage (item w i) options photo).
Qed.

Lemma error_toasts_loop rest : ∀ i,
  error_toasts (loop_events w options total i rest)
  = failed_to_process <$> failed (outcomes w options i rest).
Proof.
  induction rest as [|photo rest IH]; intros i; [done|].
  cbn [loop_events outcomes]. unfold error_toasts, item_events in *.
  rewrite omap_app. cbn [omap list_omap]. rewrite !omap_app, IH.
  fold (error_toasts (clicks w i ≫= click_while_processing)).
  rewrite error_toasts_clicks. unfold failed at 2. cbn [omap list_omap].
  by destruct (processImage (item w i) options photo).
Qed.

Lemma success_toasts_loop rest : ∀ i,
  success_toasts (loop_events w options total i rest) = [].
Proof.
  induction rest as [|photo rest IH]; intros i; [done|].
  cbn [loop_events]. unfold success_toasts, item_events in *.
  rewrite omap_app. cbn [omap list_omap]. rewrite !omap_app, IH.
  fold (success_toasts (clicks w i ≫= click_while_processing)).
  rewrite success_toasts_clicks.
  by destruct (processImage (item w i) options photo).
Qed.

End Fixed_run.

(** *** How a run ends *)

Lemma end_events (w : World) (r : Run) :
  ∃ tail,
    events (finally (deliver w r))
    = events r ++ tail
      ++ [setProcessing false; setProgress (num 0); setCurrentPhoto ""].
Proof.
  unfold finally, deliver, emit.
  destruct (0 <? length (processedPhotos r))%nat;
    [destruct (generateAsync w) as [|error]|]; cbn [events].
  - exists [saveAs (zip r) ("batch-processed-" +:+ pretty (now w) +:+ ".zip");
            toast_success
              ("Successfully processed "
                 +:+ pretty (length (processedPhotos r)) +:+ " photos")].
    by rewrite <-!(assoc_L (++)).
  - exists [console_error "Batch processing error:" error;
            toast_error "Batch processing failed"].
    by rewrite <-!(assoc_L (++)).
  - exists []. by rewrite <-!(assoc_L (++)).
Qed.

Lemma end_progress_values (w : World) (r : Run) :
  progress_values (events (finally (deliver w r)))
  = progress_values (events r) ++ [num 0].
Proof.
  unfold finally, deliver, emit.
  destruct (0 <? length (processedPhotos r))%nat;
    [destruct (generateAsync w) as [|error]|]; cbn [events];
    unfold progress_values; rewrite <-!(assoc_L (++)), omap_app;
    reflexivity.
Qed.

(** *** Progress *)

Lemma progress_after_pos (i total : nat) :
  (0 < total)%nat → num 0 < progress_after i total.
Proof.
  intros Ht. unfold progress_after.
  apply Qcmult_pos_pos; [|done].
  apply Geometry.Qcdiv_pos; apply Geometry.num_pos; lia.
Qed.

Lemma progress_after_lt (i j total : nat) :
  (0 < total)%nat → (i < j)%nat →
  progress_after i total < progress_after j total.
Proof.
  intros Ht Hij. unfold progress_after, Qcdiv.
  apply Qcmult_lt_mono_pos_r; [done|].
  apply Qcmult_lt_mono_pos_r.
  - apply Qcinv_pos, Geometry.num_pos. lia.
  - unfold num. rewrite <-Z2Qc_inj_lt. lia.
Qed.

Lemma progress_after_last (total : nat) :
  (0 < total)%nat → progress_after (total - 1) total = num 100.
Proof.
  intros Ht. unfold progress_after.
  replace (Z.of_nat (total - 1) + 1)%Z with (Z.of_nat total) by lia.
  assert (num (Z.of_nat total) ≠ num 0) as Hne
    by (apply Geometry.num_nonzero; lia).
  field. by rewrite <-Z2Qc_inj_0.
Qed.

(** X1.  Progress counts the photos attempted, not the photos that
    succeeded: after the initial 0 a run over N photos sets the progress
    to (i + 1) / N * 100 once per photo, whatever the outcome of the
    photo, then back to 0 in [finally].  These values are positive and
    strictly increasing, and the value set after the last photo is
    exactly 100. *)
Theorem progress_counts_every_attempt (w : World)
    (options : ProcessingOptions) (photos : list Types.Photo) :
  photos ≠ [] →
  let N := length photos in
  progress_values (events (startBatchProcessing w options photos))
  = num 0 :: ((λ i, progress_after i N) <$> seq 0 N) ++ [num 0]
  ∧ progress_after (N - 1) N = num 100
  ∧ ∀ i j, (i < j)%nat → (j < N)%nat →
      num 0 < progress_after i N
      ∧ progress_after i N < progress_after j N
      ∧ progress_after j N ≤ num 100.
Proof.
  intros Hne N. assert (0 < N)%nat as HN.
  { subst N. destruct photos; [done|simpl; lia]. }
  split; [|split].
  - rewrite run_unfold, end_progress_values, for_loop_events by done.
    unfold progress_values at 1. rewrite omap_app.
    fold (progress_values (loop_events w options (length photos) 0 photos)).
    by rewrite progress_values_loop.
  - by apply progress_after_last.
  - intros i j Hij Hj. split; [by apply progress_after_pos|].
    split; [by apply progress_after_lt|].
    rewrite <-(progress_after_last N HN).
    destruct (decide (j = N - 1)%nat) as [->|Hlast]; [done|].
    apply Qclt_le_weak, progress_after_lt; [done|lia].
Qed.

Lemma progress_counts_every_attempt_witness :
  let w := world (browser 100 50 ["B"]) no_clicks in
  progress_values
    (events (startBatchProcessing w defaultOptions
               [photo "A"; photo "B"; photo "C"; photo "D"]))
  = [num 0; num 25; num 50; num 75; num 100; num 0].
Proof.
  intros w.
  destruct (progress_counts_every_attempt w defaultOptions
              [photo "A"; photo "B"; photo "C"; photo "D"]) as [Hseq _];
    [discriminate|].
  rewrite Hseq. cbv zeta. compute_done.
Defined.

(** *** The end of a run *)

(** X2.  A run over a non-empty list always starts by setting
    [processing] and ends by clearing it, resetting the progress to 0
    and the current title to the empty string, whatever happens in
    between: failing photos, clicks, or a rejected [generateAsync]. *)
Theorem run_always_resets_the_dialog (w : World)
    (options : ProcessingOptions) (photos : list Types.Photo) :
  photos ≠ [] →
  ∃ during,
    events (startBatchProcessing w options photos)
    = [setProcessing true; setProgress (num 0)] ++ during
      ++ [setProcessing false; setProgress (num 0); setCurrentPhoto ""].
Proof.
  intros Hne. rewrite run_unfold by done.
  destruct (end_events w
              (for_loop w options (length photos) 0 photos start))
    as [tail ->].
  rewrite for_loop_events. simpl.
  exists (loop_events w options (length photos) 0 photos ++ tail).
  by rewrite <-(assoc_L (++)).
Qed.

Lemma run_always_resets_the_dialog_witness :
  let w := {| item := λ _, browser 100 50 []; clicks := cancel_during 0;
              generateAsync := Rejected "out of memory"; now := 0 |} in
  ∃ during,
    events (startBatchProcessing w defaultOptions [photo "A"])
    = [setProcessing true; setProgress (num 0)] ++ during
      ++ [setProcessing false; setProgress (num 0); setCurrentPhoto ""].
Proof.
  intros w.
  apply (run_always_resets_the_dialog w defaultOptions [photo "A"]).
  discriminate.
Defined.

(** *** The toasts of a run *)

Lemma end_error_toasts (w : World) (r : Run) :
  error_toasts (events (finally (deliver w r)))
  = error_toasts (events r)
    ++ (if (0 <? length (processedPhotos r))%nat
           && negb (resolves (generateAsync w))
        then ["Batch processing failed"] else []).
Proof.
  unfold finally, deliver, emit.
  destruct (0 <? length (processedPhotos r))%nat;
    [destruct (generateAsync w) as [|error]|]; cbn [events];
    unfold error_toasts; rewrite <-!(assoc_L (++)), omap_app;
    reflexivity.
Qed.

Lemma end_success_toasts (w : World) (r : Run) :
  success_toasts (events (finally (deliver w r)))
  = success_toasts (events r)
    ++ (if (0 <? length (processedPhotos r))%nat
           && resolves (generateAsync w)
        then ["Successfully processed "
                +:+ pretty (length (processedPhotos r)) +:+ " photos"]
        else []).
Proof.
  unfold finally, deliver, emit.
  destruct (0 <? length (processedPhotos r))%nat;
    [destruct (generateAsync w) as [|error]|]; cbn [events];
    unfold success_toasts; rewrite <-!(assoc_L (++)), omap_app;
    reflexivity.
Qed.

(** X3.  The error toasts of a run are one "Failed to process <title>"
    per failing photo, in input order, followed by "Batch processing
    failed" exactly when some photo was processed and [generateAsync]
    rejected: a failing photo never produces the batch-level message.
    The success toast appears exactly when the archive was saved, and
    the number it shows is the number of processed photos. *)
Theorem toasts_of_a_run (w : World) (options : ProcessingOptions)
    (photos : list Types.Photo) :
  let r := startBatchProcessing w options photos in
  let done := (0 <? length (processedPhotos r))%nat in
  error_toasts (events r)
  = (failed_to_process <$> failed (outcomes w options 0 photos))
    ++ (if done && negb (resolves (generateAsync w))
        then ["Batch processing failed"] else [])
  ∧ success_toasts (events r)
    = (if done && resolves (generateAsync w)
       then ["Successfully processed "
               +:+ pretty (length (processedPhotos r)) +:+ " photos"]
       else [])
  ∧ length (success_toasts (events r)) = length (saved_archives (events r)).
Proof.
  intros r done.
  assert (success_toasts (events r)
          = if done && resolves (generateAsync w)
            then ["Successfully processed "
                    +:+ pretty (length (processedPhotos r)) +:+ " photos"]
            else []) as Hsuccess.
  { subst r done. destruct photos as [|p photos]; [done|].
    rewrite run_unfold, end_success_toasts, end_processed by done.
    rewrite for_loop_events. unfold success_toasts at 1. rewrite omap_app.
    fold (success_toasts
            (loop_events w options (length (p :: photos)) 0 (p :: photos))).
    by rewrite success_toasts_loop. }
  split; [|split; [done|]].
  - subst r done. destruct photos as [|p photos]; [done|].
    rewrite run_unfold, end_error_toasts, end_processed by done.
    rewrite for_loop_events. unfold error_toasts at 1. rewrite omap_app.
    fold (error_toasts
            (loop_events w options (length (p :: photos)) 0 (p :: photos))).
    by rewrite error_toasts_loop.
  - rewrite Hsuccess. subst r done.
    rewrite (run_saved_archives w options photos).
    by destruct (_ && _).
Qed.

(** *** The archive *)

Lemma last_entries_named_cons (n : string) (e : string * Blob)
    (l : list (string * Blob)) :
  last (entries_named n (e :: l))
  = match last (entries_named n l) with
    | Some e' => Some e'
    | None => if decide (e.1 = n) then Some e else None
    end.
Proof.
  unfold entries_named. rewrite filter_cons.
  destruct (decide (e.1 = n)); [|by destruct (last _)].
  destruct (filter _ l) as [|e' l'] eqn:Hl; [done|].
  rewrite last_cons. by destruct (last _).
Qed.

Lemma add_files_lookup (l : list (string * Blob)) :
  ∀ (z : gmap string Blob) (n : string),
  add_files z l !! n
  = match last (entries_named n l) with
    | Some e => Some e.2
    | None => z !! n
    end.
Proof.
  induction l as [|e l IH]; intros z n; [done|].
  cbn [add_files foldl]. fold (add_files (<[e.1:=e.2]> z) l).
  rewrite IH, last_entries_named_cons.
  destruct (last (entries_named n l)); [done|].
  destruct (decide (e.1 = n)) as [<-|Hne].
  - by rewrite lookup_insert_eq.
  - by rewrite lookup_insert_ne.
Qed.

(** X4.  In the archive the last write wins: the entry of a name is the
    blob of the last processed photo with that output name, and a name
    that no processed photo has is not in the archive. *)
Theorem archive_keeps_the_last_blob_of_a_name (w : World)
    (options : ProcessingOptions) (photos : list Types.Photo) (n : string) :
  let r := startBatchProcessing w options photos in
  zip r !! n = snd <$> last (entries_named n (processedPhotos r)).
Proof.
  cbv zeta. rewrite run_zip, run_processed, add_files_lookup.
  by destruct (last _).
Qed.

End RunnerLogs.

(** ** Output names and titles *)

Module RunnerNames.

Import Dom BatchProcessor Observed Logs Loop Runs RunnerLogs Examples.

Lemma append_nil (t : string) : "" +:+ t = t.
Proof. reflexivity. Qed.

Lemma append_cons (c : Ascii.ascii) (s t : string) :
  String c s +:+ t = String c (s +:+ t).
Proof. reflexivity. Qed.

Lemma append_length (s t : string) :
  String.length (s +:+ t) = (String.length s + String.length t)%nat.
Proof.
  induction s as [|c s IH]; [done|].
  rewrite append_cons. simpl. by rewrite IH.
Qed.

Lemma append_cancel_r (s1 s2 t : string) : s1 +:+ t = s2 +:+ t → s1 = s2.
Proof.
  revert s2. induction s1 as [|c s1 IH]; intros [|c' s2];
    rewrite ?append_nil, ?append_cons; intros Heq.
  - done.
  - apply (f_equal String.length) in Heq. simpl in Heq.
    rewrite append_length in Heq. lia.
  - apply (f_equal String.length) in Heq. simpl in Heq.
    rewrite append_length in Heq. lia.
  - injection Heq as -> Heq. f_equal. by apply IH.
Qed.

Lemma fileName_same_title (options : ProcessingOptions) (p q : Types.Photo) :
  fileName options p = fileName options q ↔ Types.title p = Types.title q.
Proof.
  unfold fileName. split; [|by intros ->].
  apply append_cancel_r.
Qed.

Lemma succeeded_names_sublist (w : World) (options : ProcessingOptions)
    (rest : list Types.Photo) : ∀ i,
  (succeeded options (outcomes w options i rest)).*1
    `sublist_of` (fileName options <$> rest).
Proof.
  induction rest as [|p rest IH]; intros i; [done|].
  cbn [outcomes]. rewrite (succeeded_cons options (p, _)), fmap_app, fmap_cons.
  unfold succeeded at 1. cbn [omap list_omap]. simpl.
  destruct (processImage (item w i) options p); simpl.
  - by apply sublist_skip.
  - by apply sublist_cons.
Qed.

Lemma entries_named_unique (l : list (string * Blob)) (n : string)
    (blob : Blob) :
  NoDup l.*1 → (n, blob) ∈ l → entries_named n l = [(n, blob)].
Proof.
  unfold entries_named.
  induction l as [|e l IH]; intros Hnd Hin; [by apply elem_of_nil in Hin|].
  rewrite fmap_cons in Hnd. apply NoDup_cons in Hnd as [Hfresh Hnd].
  rewrite filter_cons. apply elem_of_cons in Hin as [<-|Hin].
  - simpl. rewrite decide_True by done. f_equal.
    destruct (filter _ l) as [|e' l'] eqn:Hf; [done|]. exfalso.
    assert (e' ∈ filter (λ e : string * Blob, e.1 = n) l) as He'
      by (rewrite Hf; apply list_elem_of_here).
    apply list_elem_of_filter in He' as [Hname He'].
    apply Hfresh. simpl. rewrite <-Hname. by apply list_elem_of_fmap_2.
  - rewrite decide_False; [by apply IH|].
    intros Hname. apply Hfresh. rewrite Hname.
    by apply (list_elem_of_fmap_2 fst _ (n, blob)).
Qed.

(** X5.  When the titles of the photos are pairwise distinct, nothing
    is overwritten in the archive: it has one entry per processed photo,
    and every processed photo is found under its own output name. *)
Theorem distinct_titles_are_never_overwritten (w : World)
    (options : ProcessingOptions) (photos : list Types.Photo) :
  NoDup (Types.title <$> photos) →
  let r := startBatchProcessing w options photos in
  size (zip r) = length (processedPhotos r)
  ∧ ∀ n blob, (n, blob) ∈ processedPhotos r → zip r !! n = Some blob.
Proof.
  intros Hnd r.
  assert (NoDup (processedPhotos r).*1) as Hnames.
  { subst r. rewrite run_processed.
    apply (sublist_NoDup _ (fileName options <$> photos));
      [|apply succeeded_names_sublist].
    change (fileName options)
      with ((λ t, t +:+ "." +:+ format_name (format options)) ∘ Types.title).
    rewrite list_fmap_compose. apply NoDup_fmap_2; [|done].
    intros t1 t2. apply append_cancel_r. }
  assert (size (zip r) = length (processedPhotos r)) as Hsize.
  { subst r. rewrite run_zip, <-run_processed.
    rewrite BatchRunner.add_files_size_fresh, map_size_empty; [done..|].
    intros n _. apply lookup_empty. }
  split; [done|]. intros n blob Hin. subst r.
  rewrite run_zip, add_files_lookup, <-run_processed.
  by rewrite (entries_named_unique _ n blob).
Qed.

Lemma distinct_titles_are_never_overwritten_witness :
  let w := world (browser 100 50 ["B"]) no_clicks in
  let r := startBatchProcessing w defaultOptions
             [photo "A"; photo "B"; photo "C"] in
  size (zip r) = length (processedPhotos r)
  ∧ ∀ n blob, (n, blob) ∈ processedPhotos r → zip r !! n = Some blob.
Proof.
  intros w.
  apply (distinct_titles_are_never_overwritten w defaultOptions
           [photo "A"; photo "B"; photo "C"]).
  compute_done.
Defined.
End RunnerNames.

(** ** More on the output dimensions *)

Module GeometryMore.

Import Dom BatchProcessor Observed Examples Geometry.



(** X7.  With the aspect ratio kept only one of the two target fields
    is read: the width for a source wider than high, the height for any
    other source.  Two option values that agree on that field (and on
    nothing else of the resize form) give the same output dimensions. *)
Theorem only_one_target_field_is_read (options options' : ProcessingOptions)
    (naturalWidth naturalHeight : Z) :
  enabled (resize options) = true → enabled (resize options') = true →
  maintainAspectRatio (resize options) = true →
  maintainAspectRatio (resize options') = true →
  (if bool_decide (naturalHeight < naturalWidth)%Z
   then width (resize options) = width (resize options')
   else height (resize options) = height (resize options')) →
  calculate_dimensions options naturalWidth naturalHeight
  = calculate_dimensions options' naturalWidth naturalHeight.
Proof.
  intros Hen Hen' Hkeep Hkeep'. unfold calculate_dimensions.
  rewrite Hen, Hen', Hkeep, Hkeep', landscape_decide.
  by destruct (bool_decide _); intros ->.
Qed.

Lemma only_one_target_field_is_read_witness :
  calculate_dimensions (resize_to 640 480 true) 1920 1080
  = calculate_dimensions (resize_to 640 9999 true) 1920 1080.
Proof.
  apply (only_one_target_field_is_read (resize_to 640 480 true)
           (resize_to 640 9999 true) 1920 1080); reflexivity.
Defined.

End GeometryMore.

(** ** The options form *)

Module OptionsForm.

Import BatchProcessor BatchOptions.

Ltac case_keys :=
  repeat match goal with
         | H : context [decide (?a = ?b)] |- _ =>
             destruct (decide (a = b)); simplify_eq/=
         | |- context [decide (?a = ?b)] =>
             destruct (decide (a = b)); simplify_eq/=
         | H : Some _ = Some _ |- _ => injection H as <-
         | H : None = Some _ |- _ => discriminate H
         end.

(** X8.  A control of the dialog changes its own option and no other:
    after [updateNestedOptions(parentKey, childKey, value)] the field
    [parentKey.childKey] reads [value], and every other nested field,
    the format and the quality read what they read before. *)
Theorem nested_update_changes_one_field (parentKey : Key)
    (childKey : string) (value : Value) (prev next : ProcessingOptions) :
  updateNestedOptions parentKey childKey value prev = Some next →
  read_nested parentKey childKey next = Some value
  ∧ (∀ p c, (p, c) ≠ (parentKey, childKey) →
            read_nested p c next = read_nested p c prev)
  ∧ (∀ key, read key next = read key prev).
Proof.
  intros Hupd. destruct parentKey; try discriminate; simpl in Hupd.
  - destruct (update_resize childKey value (resize prev)) as [r|] eqn:Hr;
      [|discriminate]. injection Hupd as <-.
    unfold update_resize in Hr.
    split; [|split].
    + destruct value; simpl; case_keys; done.
    + intros [] c Hne; try done; simpl;
        destruct value; case_keys; try done.
    + by intros [].
  - destruct (update_filters childKey value (filters prev)) as [f|] eqn:Hf;
      [|discriminate]. injection Hupd as <-.
    unfold update_filters in Hf.
    split; [|split].
    + destruct value; simpl; case_keys; done.
    + intros [] c Hne; try done; simpl;
        destruct value; case_keys; try done.
    + by intros [].
Qed.

Lemma nested_update_changes_one_field_witness :
  ∃ next,
    updateNestedOptions key_filters "brightness" (v_number (num 25))
      defaultOptions = Some next
    ∧ read_nested key_filters "brightness" next = Some (v_number (num 25))
    ∧ (∀ p c, (p, c) ≠ (key_filters, "brightness") →
              read_nested p c next = read_nested p c defaultOptions)
    ∧ (∀ key, read key next = read key defaultOptions).
Proof.
  eexists. split; [reflexivity|].
  apply (nested_update_changes_one_field key_filters "brightness"
           (v_number (num 25)) defaultOptions). reflexivity.
Defined.

End OptionsForm.

(** ** The editor: placing the image, and the sliders *)

Module EditorFacts.

Import Types PhotoEditor EditorView.







(** *** The sliders *)






End EditorFacts.

(** ** File names, paths and the client configuration *)

Module SupabaseFacts.

Import Supabase.

Lemma split_dot_nonempty (s : string) : split_dot s ≠ [].
Proof.
  destruct s as [|c s]; simpl; [done|].
  destruct (Ascii.eqb c dot); [done|]. by destruct (split_dot s).
Qed.

Lemma join_dot_cons (piece : string) (pieces : list string) :
  pieces ≠ [] →
  join_dot (piece :: pieces) = piece +:+ "." +:+ join_dot pieces.
Proof. by destruct pieces. Qed.

Lemma split_dot_pieces (s : string) :
  Forall (λ piece, dotless piece = true) (split_dot s)
  ∧ join_dot (split_dot s) = s.
Proof.
  induction s as [|c s [IHd IHj]]; [by repeat constructor|].
  pose proof (split_dot_nonempty s) as Hne. simpl.
  destruct (Ascii.eqb c dot) eqn:Hc.
  - apply Ascii.eqb_eq in Hc as ->. split; [by constructor|].
    change (String dot s) with ("" +:+ "." +:+ s).
    by rewrite join_dot_cons, IHj.
  - destruct (split_dot s) as [|piece pieces]; [done|].
    apply Forall_cons in IHd as [Hpiece Hpieces]. split.
    + constructor; [|done]. simpl. by rewrite Hc.
    + rewrite <-IHj. by destruct pieces.
Qed.

(** X12.  Splitting a name at its dots loses nothing: there is always
    at least one piece, no piece contains a dot, and joining the pieces
    with dots gives the name back. *)
Theorem split_dot_round_trip (s : string) :
  split_dot s ≠ []
  ∧ Forall (λ piece, dotless piece = true) (split_dot s)
  ∧ join_dot (split_dot s) = s.
Proof.
  split; [apply split_dot_nonempty|apply split_dot_pieces].
Qed.

(** Appending to a join. *)
Lemma append_assoc (s1 s2 s3 : string) :
  (s1 +:+ s2) +:+ s3 = s1 +:+ s2 +:+ s3.
Proof.
  induction s1 as [|c s1 IH]; [done|].
  change (String c (s1 +:+ s2) +:+ s3 = String c (s1 +:+ s2 +:+ s3)).
  change (String c ((s1 +:+ s2) +:+ s3) = String c (s1 +:+ s2 +:+ s3)).
  by rewrite IH.
Qed.

Lemma join_dot_snoc (pieces : list string) (piece : string) :
  pieces ≠ [] →
  join_dot (pieces ++ [piece]) = join_dot pieces +:+ "." +:+ piece.
Proof.
  induction pieces as [|p pieces IH]; [done|]. intros _.
  destruct pieces as [|p' pieces]; [done|].
  change ((p :: p' :: pieces) ++ [piece])
    with (p :: ((p' :: pieces) ++ [piece])).
  rewrite join_dot_cons by done. rewrite IH by done.
  rewrite (join_dot_cons p) by done. by rewrite !append_assoc.
Qed.

Lemma dotless_whole (s : string) : dotless s = true → split_dot s = [s].
Proof.
  induction s as [|c s IH]; [done|]. simpl.
  intros [Hc Hs]%andb_prop. apply negb_true_iff in Hc. rewrite Hc.
  by rewrite IH.
Qed.

(** X13.  The title of an uploaded photo is the file name up to its
    first dot, and the extension in its storage path is the file name
    after its last dot; neither contains a dot.  A file name without a
    dot is its own title and its own extension, so that the path ends
    with a dot followed by the whole name. *)
Theorem title_and_extension_of_a_file (file : File) (userId : string)
    (now : Z) :
  let title := PhotoUpload.title_of file in
  let ext := fileExt file in
  (dotless title = true ∧ dotless ext = true)
  ∧ (name file = title ∨ ∃ rest, name file = title +:+ "." +:+ rest)
  ∧ (name file = ext ∨ ∃ front, name file = front +:+ "." +:+ ext)
  ∧ (dotless (name file) = true →
     title = name file
     ∧ fileName userId now file
       = userId +:+ "/" +:+ pretty now +:+ "." +:+ name file).
Proof.
  cbv zeta. unfold PhotoUpload.title_of, fileExt, fileName.
  pose proof (split_dot_nonempty (name file)) as Hne.
  destruct (split_dot_pieces (name file)) as (Hdot & Hjoin).
  split; [|split; [|split]].
  - destruct (split_dot (name file)) as [|p ps] eqn:Hs; [done|]. split.
    + by apply Forall_cons in Hdot as [? _].
    + destruct (last (p :: ps)) as [e|] eqn:Hlast; [|done].
      apply last_Some_elem_of in Hlast.
      by apply (proj1 (Forall_forall _ _) Hdot).
  - destruct (split_dot (name file)) as [|p [|p' ps]] eqn:Hs; [done|..].
    + by left.
    + right. exists (join_dot (p' :: ps)). by rewrite <-Hjoin.
  - clear Hdot. revert Hne Hjoin.
    generalize (split_dot (name file)). intros pieces.
    induction pieces as [|p ps _] using rev_ind; [done|].
    intros _ Hjoin. rewrite last_snoc. simpl.
    destruct ps as [|p' ps].
    + by left.
    + right. exists (join_dot (p' :: ps)).
      by rewrite <-Hjoin, join_dot_snoc.
  - intros Hd. unfold fileExt. by rewrite (dotless_whole _ Hd).
Qed.

Lemma title_and_extension_of_a_file_witness :
  let file := {| name := "README"; type := "image/png"; size := num 1 |} in
  PhotoUpload.title_of file = "README"
  ∧ fileName "u1" 1700000000000 file = "u1/1700000000000.README".
Proof.
  intros file.
  destruct (title_and_extension_of_a_file file "u1" 1700000000000)
    as (_ & _ & _ & Hwhole).
  destruct Hwhole as [Ht Hp]; [reflexivity|]. split; [done|].
  rewrite Hp. reflexivity.
Defined.

(** X14.  The client is always created with a URL that starts with
    "http" and with a key that is not empty: an injected value is used
    when it is such a string, and the placeholder otherwise. *)
Theorem client_configuration_is_well_formed (injectedUrl : option string)
    (injectedAnon : option string) :
  String.prefix "http" (supabaseUrl injectedUrl) = true
  ∧ (0 < String.length (supabaseAnonKey injectedAnon))%nat
  ∧ (∀ url, injectedUrl = Some url → String.prefix "http" url = true →
            supabaseUrl injectedUrl = url)
  ∧ (∀ key, injectedAnon = Some key → key ≠ "" →
            supabaseAnonKey injectedAnon = key).
Proof.
  unfold supabaseUrl, supabaseAnonKey. repeat split.
  - destruct injectedUrl as [url|]; [|done].
    by destruct (String.prefix "http" url) eqn:Hp.
  - destruct injectedAnon as [key|]; [|simpl; lia].
    destruct (Nat.ltb_spec 0 (String.length key)); [done|simpl; lia].
  - by intros url -> ->.
  - intros key -> Hkey. by destruct key.
Qed.

End SupabaseFacts.

(** ** The upload form *)

Module UploadFacts.

Import Supabase PhotoUpload.

(** *** The selection *)

Lemma removeFile_from (index : nat) (l : list File) : ∀ k,
  (filter (λ entry : nat * File, entry.1 ≠ index)
     (imap (λ i file, ((k + i)%nat, file)) l)).*2
  = if decide (k ≤ index)%nat then delete (index - k)%nat l else l.
Proof.
  induction l as [|file l IH]; intros k; [by destruct (decide _)|].
  rewrite imap_cons, filter_cons. simpl.
  rewrite (imap_ext _ (λ i f, ((S k + i)%nat, f))) by (intros; simpl; f_equal; lia).
  replace (k + 0)%nat with k by lia.
  destruct (decide (k ≠ index)) as [Hne|Heq].
  - rewrite fmap_cons, IH. simpl.
    destruct (decide (k ≤ index)%nat), (decide (S k ≤ index)%nat);
      try lia; [|done].
    by replace (index - k)%nat with (S (index - S k)) by lia.
  - apply dec_stable in Heq as ->. rewrite IH.
    destruct (decide (index ≤ index)%nat), (decide (S index ≤ index)%nat);
      try lia.
    by rewrite Nat.sub_diag.
Qed.

Lemma removeFile_delete (index : nat) (prev : list File) :
  removeFile index prev = delete index prev.
Proof.
  pose proof (removeFile_from index prev 0) as Hfrom.
  rewrite decide_True, Nat.sub_0_r in Hfrom by lia. exact Hfrom.
Qed.

(** X15.  [removeFile(index)] removes the file at that position and no
    other, also when the same file was selected twice; an index past
    the end leaves the selection as it is. *)
Theorem removeFile_deletes_one_position (index : nat) (prev : list File) :
  removeFile index prev = delete index prev
  ∧ ((index < length prev)%nat →
     length (removeFile index prev) = (length prev - 1)%nat)
  ∧ ((length prev ≤ index)%nat → removeFile index prev = prev).
Proof.
  pose proof (removeFile_delete index prev) as Heq.
  split; [done|]. rewrite Heq. split.
  - intros Hlt. rewrite length_delete; [lia|]. by apply lookup_lt_is_Some.
  - intros Hge.
    by rewrite delete_take_drop, take_ge, drop_ge, (right_id_L [] (++)) by lia.
Qed.

Lemma removeFile_deletes_one_position_witness :
  let a := {| name := "a.png"; type := "image/png"; size := num 1 |} in
  length (removeFile 1 [a; a; a]) = (3 - 1)%nat.
Proof.
  intros a.
  destruct (removeFile_deletes_one_position 1 [a; a; a]) as (_ & Hlen & _).
  apply Hlen. simpl. lia.
Defined.

Lemma filter_all_length {A} (P : A → Prop) `{∀ x, Decision (P x)}
    (l : list A) :
  length (filter P l) = length l ↔ Forall P l.
Proof.
  induction l as [|x l IH]; [by split; [constructor|]|].
  rewrite filter_cons. pose proof (length_filter P l) as Hle.
  destruct (decide (P x)); simpl.
  - rewrite Forall_cons. split.
    + intros [= Hlen]. split; [done|]. by apply IH.
    + intros [_ Hall]. f_equal. by apply IH.
  - split; [lia|]. by intros [? _]%Forall_cons.
Qed.

(** X16.  Only images are ever selected: after any sequence of drops
    and removals, starting from the empty selection, every selected
    file has a type that starts with "image/".  A drop keeps what was
    selected, appends its image files in their order, and shows the
    error toast exactly when it contained a file that is not an
    image. *)
Theorem only_images_are_selected (actions : list Action)
    (acceptedFiles prev : list File) :
  Forall (λ file, is_image file = true) (selection_after actions)
  ∧ (onDrop acceptedFiles prev).1
    = prev ++ filter (λ file, is_image file = true) acceptedFiles
  ∧ ((onDrop acceptedFiles prev).2 = []
     ↔ Forall (λ file, is_image file = true) acceptedFiles)
  ∧ ((onDrop acceptedFiles prev).2 ≠ [] →
     (onDrop acceptedFiles prev).2
     = [toast_error "Only image files are supported"]).
Proof.
  split; [|split; [done|split]].
  - unfold selection_after.
    assert (∀ sel, Forall (λ file, is_image file = true) sel →
                   Forall (λ file, is_image file = true) (foldl act sel actions))
      as Hinv; [|by apply Hinv].
    induction actions as [|a actions IH]; intros sel Hsel; [done|].
    simpl. apply IH. destruct a as [fs|index]; simpl.
    + apply Forall_app. split; [done|].
      apply Forall_forall. by intros file [? _]%list_elem_of_filter.
    + rewrite removeFile_delete. by apply Forall_delete.
  - unfold onDrop. simpl. rewrite <-filter_all_length.
    case_bool_decide as Hlen; split; try done.
  - unfold onDrop. simpl. by case_bool_decide.
Qed.

(** *** The upload *)

Section Loop.

Context (b : Backend) (userId : string) (total : nat).

Lemma upload_loop_all_resolve (rest : list File) :
  ∀ (i : nat) (acc photos : list Types.Photo),
  length photos = length rest →
  (∀ j file photo, rest !! j = Some file → photos !! j = Some photo →
     upload_one b userId (i + j) file = BatchProcessor.Resolved photo) →
  ∃ es,
    upload_loop b userId total i rest acc
    = (es, BatchProcessor.Resolved (acc ++ photos))
    ∧ length (storage_paths es) = length rest
    ∧ length (inserted_rows es) = length rest
    ∧ completions es = [] ∧ selections es = [] ∧ error_toasts es = [].
Proof.
  induction rest as [|file rest IH]; intros i acc photos Hlen Hok.
  - destruct photos; [|done]. exists []. by rewrite (right_id_L [] (++)).
  - destruct photos as [|photo photos]; [done|].
    pose proof (Hok 0%nat file photo eq_refl eq_refl) as H0.
    rewrite Nat.add_0_r in H0. unfold upload_one in H0.
    cbn [upload_loop].
    destruct (uploadImage (storage b i) (now b i) file userId)
      as [uploaded|]; [|done].
    rewrite H0.
    destruct (IH (S i) (acc ++ [photo]) photos) as (es & -> & Hs & Hr & Hc).
    { simpl in Hlen. lia. }
    { intros j f p Hf Hp. rewrite Nat.add_succ_l, <-Nat.add_succ_r.
      by apply Hok. }
    eexists. split; [by rewrite <-(assoc_L (++))|].
    unfold storage_paths, inserted_rows, completions, selections,
      error_toasts in *.
    rewrite !omap_app, !length_app, Hs, Hr.
    by destruct Hc as (-> & -> & ->).
Qed.

Lemma upload_loop_first_failure (rest : list File) :
  ∀ (i k : nat) (acc : list Types.Photo) (file : File) (error : string),
  rest !! k = Some file →
  upload_one b userId (i + k) file = BatchProcessor.Rejected error →
  (∀ j f, (j < k)%nat → rest !! j = Some f →
     BatchProcessor.resolves (upload_one b userId (i + j) f) = true) →
  ∃ es,
    upload_loop b userId total i rest acc
    = (es, BatchProcessor.Rejected error)
    ∧ length (storage_paths es) = S k
    ∧ length (inserted_rows es)
      = (k + if BatchProcessor.resolves
                  (uploadImage (storage b (i + k)) (now b (i + k)) file
                     userId)
             then 1 else 0)%nat
    ∧ completions es = [] ∧ selections es = [] ∧ error_toasts es = [].
Proof.
  induction rest as [|f rest IH]; intros i k acc file error Hk Hfail Hbefore;
    [done|].
  destruct k as [|k].
  - injection Hk as ->. rewrite Nat.add_0_r in *.
    unfold upload_one in Hfail. cbn [upload_loop].
    destruct (uploadImage (storage b i) (now b i) file userId)
      as [uploaded|e].
    + rewrite Hfail. by eexists.
    + injection Hfail as ->. by eexists.
  - pose proof (Hbefore 0%nat f ltac:(lia) eq_refl) as H0.
    rewrite Nat.add_0_r in H0. unfold upload_one in H0.
    cbn [upload_loop].
    destruct (uploadImage (storage b i) (now b i) f userId)
      as [uploaded|]; [|done].
    destruct (insert b i (row_of userId f uploaded)) as [photo|]; [|done].
    rewrite Nat.add_succ_r, <-Nat.add_succ_l in Hfail |- *.
    destruct (IH (S i) k (acc ++ [photo]) file error Hk Hfail)
      as (es & -> & Hs & Hr & Hc).
    { intros j f' Hj Hf'. rewrite Nat.add_succ_l, <-Nat.add_succ_r.
      apply Hbefore; [lia|done]. }
    eexists. split; [done|].
    unfold storage_paths, inserted_rows, completions, selections,
      error_toasts in *.
    rewrite !omap_app, !length_app, Hs, Hr.
    by destruct Hc as (-> & -> & ->).
Qed.

End Loop.

Ltac show_events :=
  unfold storage_paths, inserted_rows, completions, selections, error_toasts;
  rewrite !omap_app, ?length_app.

(** X17.  When the upload and the insertion succeed for every selected
    file, each file is sent to storage once and gets one row,
    [onUploadComplete] is called once, with the photos the database
    returned, in the order of the selection, the selection is emptied,
    and no error is shown. *)
Theorem upload_of_every_file (b : Backend) (userId : string)
    (files : list File) (photos : list Types.Photo) :
  files ≠ [] →
  length photos = length files →
  (∀ i file photo, files !! i = Some file → photos !! i = Some photo →
     upload_one b userId i file = BatchProcessor.Resolved photo) →
  let es := uploadFiles (Some userId) files b in
  completions es = [photos]
  ∧ selections es = [[]]
  ∧ error_toasts es = []
  ∧ length (storage_paths es) = length files
  ∧ length (inserted_rows es) = length files
  ∧ toast_success
      ("Successfully uploaded " +:+ pretty (length files) +:+ " photos") ∈ es.
Proof.
  intros Hne Hlen Hok.
  destruct (upload_loop_all_resolve b userId (length files) files 0 []
              photos Hlen Hok) as (loop & Hloop & Hs & Hr & Hc & Hsel & He).
  cbv zeta. unfold uploadFiles. destruct files as [|f files]; [done|].
  change (length (f :: files) =? 0)%nat with false. cbv iota.
  rewrite Hloop. cbv beta iota. rewrite <-Hlen.
  repeat split.
  - show_events. fold (completions loop). by rewrite Hc.
  - show_events. fold (selections loop). by rewrite Hsel.
  - show_events. fold (error_toasts loop). by rewrite He.
  - show_events. fold (storage_paths loop). rewrite Hs, Hlen. simpl. lia.
  - show_events. fold (inserted_rows loop). rewrite Hr, Hlen. simpl. lia.
  - rewrite !elem_of_app. right. right. left. apply list_elem_of_here.
Qed.

Lemma upload_of_every_file_witness :
  let b := UploadExamples.backend [] [] in
  let files := [UploadExamples.image "a.png"; UploadExamples.image "b.c.png"] in
  let es := uploadFiles (Some "u1") files b in
  (Types.title <$> mjoin (completions es)) = ["a"; "b"]
  ∧ selections es = [[]]
  ∧ storage_paths es = ["u1/1700000000000.png"; "u1/1700000000001.png"].
Proof.
  intros b files es.
  set (photos := [UploadExamples.stored 0
                    (row_of "u1" (UploadExamples.image "a.png")
                       {| path := "u1/1700000000000.png";
                          url := "https://cdn.example/u1/1700000000000.png" |});
                  UploadExamples.stored 1
                    (row_of "u1" (UploadExamples.image "b.c.png")
                       {| path := "u1/1700000000001.png";
                          url := "https://cdn.example/u1/1700000000001.png" |})]).
  destruct (upload_of_every_file b "u1" files photos) as (Hc & Hsel & _).
  - discriminate.
  - reflexivity.
  - intros [|[|i]] file photo Hf Hp; simplify_eq/=; reflexivity.
  - subst es. rewrite Hc, Hsel. repeat split; reflexivity.
Defined.

(** X18.  The first file whose upload or insertion fails ends the
    upload: no later file is sent to storage, [onUploadComplete] is not
    called and the selection is not emptied, although the files before
    it are stored and have their rows; one error toast is shown.  When
    it is the insertion that fails, the file itself stays in storage
    without a row.  The form is reset in every case. *)
Theorem upload_stops_at_the_first_failure (b : Backend) (userId : string)
    (files : list File) (k : nat) (file : File) (error : string) :
  files !! k = Some file →
  upload_one b userId k file = BatchProcessor.Rejected error →
  (∀ j f, (j < k)%nat → files !! j = Some f →
     BatchProcessor.resolves (upload_one b userId j f) = true) →
  let es := uploadFiles (Some userId) files b in
  let stored :=
    BatchProcessor.resolves
      (uploadImage (storage b k) (now b k) file userId) in
  (completions es = [] ∧ selections es = [])
  ∧ error_toasts es = ["Failed to upload photos"]
  ∧ length (storage_paths es) = S k
  ∧ length (inserted_rows es) = (k + if stored then 1 else 0)%nat
  ∧ ∃ during,
      es = [setUploading true; setUploadProgress (num 0)] ++ during
           ++ [setUploading false; setUploadProgress (num 0)].
Proof.
  intros Hk Hfail Hbefore.
  destruct (upload_loop_first_failure b userId (length files) files 0 k []
              file error Hk Hfail Hbefore)
    as (loop & Hloop & Hs & Hr & Hc & Hsel & He).
  cbv zeta. unfold uploadFiles. destruct files as [|f files]; [done|].
  change (length (f :: files) =? 0)%nat with false. cbv iota.
  rewrite Hloop. cbv beta iota.
  repeat split.
  - show_events. fold (completions loop). by rewrite Hc.
  - show_events. fold (selections loop). by rewrite Hsel.
  - show_events. fold (error_toasts loop). by rewrite He.
  - show_events. fold (storage_paths loop). rewrite Hs. simpl. lia.
  - show_events. fold (inserted_rows loop). rewrite Hr. simpl. lia.
  - exists (loop ++ [console_error "Upload error:" error;
                     toast_error "Failed to upload photos"]).
    by rewrite <-(assoc_L (++)).
Qed.

Lemma upload_stops_at_the_first_failure_witness :
  let b := UploadExamples.backend [] ["b"] in
  let files := UploadExamples.image <$> ["a.png"; "b.png"; "c.png"] in
  let es := uploadFiles (Some "u1") files b in
  (completions es = [] ∧ selections es = [])
  ∧ error_toasts es = ["Failed to upload photos"]
  ∧ length (storage_paths es) = 2%nat
  ∧ length (inserted_rows es) = (1 + 1)%nat
  ∧ ∃ during,
      es = [setUploading true; setUploadProgress (num 0)] ++ during
           ++ [setUploading false; setUploadProgress (num 0)].
Proof.
  intros b files.
  apply (upload_stops_at_the_first_failure b "u1" files 1
           (UploadExamples.image "b.png")
           "new row violates row-level security").
  - reflexivity.
  - reflexivity.
  - intros [|j] f Hj Hf; [|lia]. injection Hf as <-. reflexivity.
Defined.

End UploadFacts.

(** ** Selecting, deleting, and what the batch dialog gets *)

Module GalleryFacts.

Import Supabase PhotoGrid Gallery.

Lemma batch_stale (st : State) :
  (∀ photo, photo ∈ photos st → Types.id photo ∉ selectedPhotos st) →
  selectedPhotoObjects st = [].
Proof.
  intros Hstale. unfold selectedPhotoObjects.
  destruct (filter _ (photos st)) as [|p l] eqn:Hf; [done|]. exfalso.
  assert (p ∈ filter (λ photo, Types.id photo ∈ selectedPhotos st)
                (photos st)) as Hp
    by (rewrite Hf; apply list_elem_of_here).
  apply list_elem_of_filter in Hp as [Hsel Hp]. by apply (Hstale p).
Qed.

(** X19.  A click on a photo toggles it in the selection and touches no
    other photo: afterwards the photo is selected exactly when it was
    not before, every other photo is selected exactly when it was
    before, and a selection without repetition stays without
    repetition.  Selecting a photo and deselecting it again gives the
    selection back as it was. *)
Theorem toggle_flips_one_photo (photoId : string)
    (selectedPhotos : list string) :
  let next := toggleSelection photoId selectedPhotos in
  (photoId ∈ next ↔ photoId ∉ selectedPhotos)
  ∧ (∀ other, other ≠ photoId → other ∈ next ↔ other ∈ selectedPhotos)
  ∧ (NoDup selectedPhotos → NoDup next)
  ∧ (photoId ∉ selectedPhotos →
     toggleSelection photoId next = selectedPhotos).
Proof.
  cbv zeta. unfold toggleSelection.
  case_bool_decide as Hin; repeat split.
  - by intros [? _]%list_elem_of_filter.
  - done.
  - by intros [_ ?]%list_elem_of_filter.
  - intros Ho. by apply list_elem_of_filter.
  - by apply NoDup_filter.
  - done.
  - done.
  - intros _. apply elem_of_app. right. apply list_elem_of_here.
  - intros [?|Hhere%list_elem_of_singleton]%elem_of_app; done.
  - intros Ho. apply elem_of_app. by left.
  - intros Hnd. apply NoDup_app. split; [done|]. split.
    + by intros x Hx ->%list_elem_of_singleton.
    + apply NoDup_singleton.
  - intros _. rewrite bool_decide_eq_true_2
      by (apply elem_of_app; right; apply list_elem_of_here).
    rewrite filter_app, filter_cons_False, filter_nil, (right_id_L [] (++))
      by (by intros ?).
    induction selectedPhotos as [|x l IH]; [done|].
    apply not_elem_of_cons in Hin as [Hne Hin].
    rewrite filter_cons_True by done. f_equal. by apply IH.
Qed.

Lemma toggle_flips_one_photo_witness :
  toggleSelection "p2" (toggleSelection "p2" ["p1"; "p3"]) = ["p1"; "p3"].
Proof.
  destruct (toggle_flips_one_photo "p2" ["p1"; "p3"]) as (_ & _ & _ & Hback).
  apply Hback. compute_done.
Defined.

(** X20.  The batch dialog gets the selected photos in the order of the
    gallery, not in the order in which they were clicked: its photos
    are a sublist of the gallery's photos, a photo is among them
    exactly when it is in the gallery and its id is selected, and
    selecting the same photos in another order gives the same list.
    A selected id that is not in the gallery contributes nothing. *)
Theorem batch_gets_the_selection_in_gallery_order (st : State) :
  selectedPhotoObjects st `sublist_of` photos st
  ∧ (∀ photo, photo ∈ selectedPhotoObjects st
              ↔ Types.id photo ∈ selectedPhotos st ∧ photo ∈ photos st)
  ∧ (∀ photoIds, photoIds ≡ₚ selectedPhotos st →
       selectedPhotoObjects (setSelectedPhotos photoIds st)
       = selectedPhotoObjects st)
  ∧ ((∀ photo, photo ∈ photos st → Types.id photo ∉ selectedPhotos st) →
     selectedPhotoObjects st = []).
Proof.
  split; [|split; [|split]].
  - apply sublist_filter.
  - intros photo. unfold selectedPhotoObjects.
    by rewrite list_elem_of_filter.
  - intros photoIds Hperm. unfold selectedPhotoObjects. simpl.
    apply list_filter_iff. intros photo. by rewrite Hperm.
  - apply batch_stale.
Qed.

Lemma batch_gets_the_selection_in_gallery_order_witness :
  let st := {| photos := Examples.photo <$> ["A"; "B"; "C"];
               selectedPhotos := ["id-C"; "id-A"];
               showBatchProcessor := false |} in
  Types.title <$> selectedPhotoObjects st = ["A"; "C"]
  ∧ selectedPhotoObjects (setSelectedPhotos ["id-A"; "id-C"] st)
    = selectedPhotoObjects st.
Proof.
  intros st. split; [reflexivity|].
  destruct (batch_gets_the_selection_in_gallery_order st)
    as (_ & _ & Hperm & _).
  apply Hperm. apply Permutation_swap.
Defined.

(** X21.  A deleted photo stays selected.  After a successful
    [handleDelete] no photo of that id is left in the gallery, but the
    selection is what it was; if the deleted photo was the only one
    selected, "Batch Process" still opens the dialog, without a toast,
    and the dialog holds no photo, so that starting the run does
    nothing at all. *)
Theorem deleted_photo_stays_selected (userId : string) (storage : Storage)
    (delete_row : string -> option string) (st : State)
    (photo : Types.Photo) (w : BatchProcessor.World)
    (options : BatchProcessor.ProcessingOptions) :
  remove storage [Types.file_path photo] = None →
  delete_row (Types.id photo) = None →
  let after :=
    after_delete
      (handleDelete (Some userId) storage delete_row (photos st) photo) st in
  (selectedPhotos after = selectedPhotos st
   ∧ photos after = filter (λ p, Types.id p ≠ Types.id photo) (photos st)
   ∧ ∀ p, p ∈ photos after → Types.id p ≠ Types.id photo)
  ∧ (selectedPhotos st = [Types.id photo] →
     showBatchProcessor (handleBatchProcess after).1 = true
     ∧ (handleBatchProcess after).2 = []
     ∧ selectedPhotoObjects (handleBatchProcess after).1 = []
     ∧ BatchProcessor.events
         (BatchProcessor.startBatchProcessing w options
            (selectedPhotoObjects (handleBatchProcess after).1)) = []).
Proof.
  intros Hremove Hrow. cbv zeta.
  unfold handleDelete, deleteImage. rewrite Hremove, Hrow. simpl.
  split; [split; [done|split; [done|]]|].
  - by intros p [? _]%list_elem_of_filter.
  - intros Hsel. unfold handleBatchProcess. simpl. rewrite Hsel. simpl.
    assert (selectedPhotoObjects
              {| photos := filter (λ p, Types.id p ≠ Types.id photo)
                             (photos st);
                 selectedPhotos := [Types.id photo];
                 showBatchProcessor := true |} = []) as ->; [|done].
    apply batch_stale. simpl.
    intros p [Hne _]%list_elem_of_filter Hin%list_elem_of_singleton. done.
Qed.


Lemma deleted_photo_stays_selected_witness :
  let st := {| photos := Examples.photo <$> ["A"; "B"];
               selectedPhotos := ["id-A"];
               showBatchProcessor := false |} in
  let after :=
    after_delete
      (handleDelete (Some "u1") (UploadExamples.bucket []) (λ _, None)
         (photos st) (Examples.photo "A")) st in
  selectedPhotos after = ["id-A"]
  ∧ showBatchProcessor (handleBatchProcess after).1 = true
  ∧ selectedPhotoObjects (handleBatchProcess after).1 = [].
Proof.
  intros st.
  destruct (deleted_photo_stays_selected "u1" (UploadExamples.bucket [])
              (λ _, None) st (Examples.photo "A")
              (Examples.world (Examples.browser 100 50 []) Examples.no_clicks)
              BatchProcessor.defaultOptions)
    as ((Hsel & _) & Hbatch); [reflexivity..|].
  destruct Hbatch as (Hopen & _ & Hnone & _); [reflexivity|].
  cbv zeta. split; [by rewrite Hsel|]. by split.
Defined.

(** X22.  Deleting a photo removes its file first and its row second,
    and changes the list only when both succeed: then every photo of
    that id leaves the list and the others stay, in their order.  When
    the file cannot be removed the row is not touched.  When the file
    is removed and the row is not, the photo stays in the list although
    its file is gone, and an error toast is shown. *)
Theorem deletion_changes_the_list_only_when_both_succeed
    (user : option string) (storage : Storage)
    (delete_row : string -> option string) (photos : list Types.Photo)
    (photo : Types.Photo) :
  let es := handleDelete user storage delete_row photos photo in
  let path := Types.file_path photo in
  photo_changes es
  = (if bool_decide (is_Some user)
        && bool_decide (remove storage [path] = None)
        && bool_decide (delete_row (Types.id photo) = None)
     then [filter (λ p, Types.id p ≠ Types.id photo) photos] else [])
  ∧ (photos_delete (Types.id photo) ∈ es → remove storage [path] = None)
  ∧ (∀ error, is_Some user → remove storage [path] = None →
       delete_row (Types.id photo) = Some error →
       es = [ storage_remove path; photos_delete (Types.id photo);
              console_error "Delete error:" error;
              toast_error "Failed to delete photo" ]).
Proof.
  cbv zeta. unfold handleDelete, deleteImage.
  destruct user as [userId|]; simpl.
  2: { split; [done|]. split; [by intros ?%elem_of_nil|].
       by intros error [? [=]]. }
  destruct (remove storage [Types.file_path photo]) as [e|] eqn:Hremove;
    simpl.
  - split; [done|]. split; [|done].
    intros Hin. repeat (apply elem_of_cons in Hin as [[=]|Hin]).
    by apply elem_of_nil in Hin.
  - destruct (delete_row (Types.id photo)) as [e|] eqn:Hrow; simpl.
    + split; [done|]. split; [done|]. by intros error _ _ [= ->].
    + split; [done|]. split; [done|]. by intros error _ _ [=].
Qed.

Lemma deletion_changes_the_list_only_when_both_succeed_witness :
  handleDelete (Some "u1") (UploadExamples.bucket [])
    (λ _, Some "permission denied") (Examples.photo <$> ["A"; "B"])
    (Examples.photo "A")
  = [ storage_remove "u1/A"; photos_delete "id-A";
      console_error "Delete error:" "permission denied";
      toast_error "Failed to delete photo" ].
Proof.
  destruct (deletion_changes_the_list_only_when_both_succeed (Some "u1")
              (UploadExamples.bucket []) (λ _, Some "permission denied")
              (Examples.photo <$> ["A"; "B"]) (Examples.photo "A"))
    as (_ & _ & Hgone).
  apply (Hgone "permission denied"); [by eexists|reflexivity..].
Defined.

End GalleryFacts.
